(** * budo_utils: the caching, trimming and persistence pipeline of
      [budolib/budo_scraper.py]

    A shallow embedding of the classes [BudoPersistence], [BudoTrimmer] and
    [BudoHtml] together with the properties the specification states about
    them.

    Modelling conventions.
    - A Python [str] is a [string]; indices, slices and lengths count the
      characters of that string.
    - A Python [dict] that the code iterates over is an association list in
      insertion order; the in-memory web cache, which is only looked up and
      assigned, is a [gmap].
    - Every method runs in the monad [M]: it threads the program state
      (file tree, web cache, trimmer registry, recursion flag, log, network
      requests) and either returns a value or raises an exception.  State
      changes made before an exception is raised are kept, as in Python.
    - [BudoLogger] is modelled by the trace of logged records; the log files
      it maintains are not part of the modelled file tree.
    - The file tree is that of a POSIX system: writing a text leaves its
      line ends as they are, reading a text applies universal newlines. *)

From Stdlib Require Import String Ascii List Arith Bool Lia DecimalString.
From stdpp Require Import base option gmap strings.
Import ListNotations.

Local Open Scope string_scope.
Local Open Scope list_scope.

(** ** Python string primitives *)

(** [text[n:]] *)
Fixpoint str_drop (n : nat) (s : string) : string :=
  match n, s with
  | O, _ => s
  | S _, EmptyString => EmptyString
  | S k, String _ s' => str_drop k s'
  end.

(** [text[:n]] *)
Fixpoint str_take (n : nat) (s : string) : string :=
  match n, s with
  | O, _ => EmptyString
  | S _, EmptyString => EmptyString
  | S k, String c s' => String c (str_take k s')
  end.

(** [text.startswith(p, i)] for [0 <= i <= len(text)] *)
Definition startswith (text p : string) (i : nat) : bool :=
  String.prefix p (str_drop i text).

(** [sub in text] *)
Fixpoint str_in (sub text : string) : bool :=
  String.prefix sub text ||
  match text with
  | EmptyString => false
  | String _ text' => str_in sub text'
  end.

(** [c in chars] for a single character [c] *)
Fixpoint char_in (c : ascii) (chars : string) : bool :=
  match chars with
  | EmptyString => false
  | String d chars' => Ascii.eqb c d || char_in c chars'
  end.

(** [text.replace(old, new)]: occurrences are replaced left to right and do
    not overlap; [skip] counts the characters of a matched occurrence that
    are still to be passed over.  An empty [old] matches between all
    characters and at both ends. *)
Fixpoint replace_from (old new : string) (skip : nat) (text : string) : string :=
  match skip with
  | S k =>
      match text with
      | EmptyString => EmptyString
      | String _ text' => replace_from old new k text'
      end
  | O =>
      match text with
      | EmptyString => if String.prefix old EmptyString then new else EmptyString
      | String c text' =>
          if String.prefix old text then
            match String.length old with
            | O => new ++ String c (replace_from old new O text')
            | S k => new ++ replace_from old new k text'
            end
          else String c (replace_from old new O text')
      end
  end.

Definition str_replace (text old new : string) : string :=
  replace_from old new O text.

(** [text.split(sep)] for a one-character separator *)
Fixpoint str_split (sep : ascii) (text : string) : list string :=
  match text with
  | EmptyString => [EmptyString]
  | String c text' =>
      if Ascii.eqb c sep then EmptyString :: str_split sep text'
      else
        match str_split sep text' with
        | [] => [String c EmptyString]
        | w :: ws => String c w :: ws
        end
  end.

(** [sep.join(parts)] *)
Fixpoint str_join (sep : string) (parts : list string) : string :=
  match parts with
  | [] => EmptyString
  | [w] => w
  | w :: ws => w ++ sep ++ str_join sep ws
  end.

Definition is_upper (c : ascii) : bool :=
  ((65 <=? nat_of_ascii c) && (nat_of_ascii c <=? 90))%nat.

Definition is_lower (c : ascii) : bool :=
  ((97 <=? nat_of_ascii c) && (nat_of_ascii c <=? 122))%nat.
Definition is_digit (c : ascii) : bool :=
  ((48 <=? nat_of_ascii c) && (nat_of_ascii c <=? 57))%nat.

Definition char_lower (c : ascii) : ascii :=
  if is_upper c then ascii_of_nat (nat_of_ascii c + 32) else c.

(** [text.lower()] on ASCII letters *)
Fixpoint str_lower (s : string) : string :=
  match s with
  | EmptyString => EmptyString
  | String c s' => String (char_lower c) (str_lower s')
  end.

Fixpoint str_all (f : ascii -> bool) (s : string) : bool :=
  match s with
  | EmptyString => true
  | String c s' => f c && str_all f s'
  end.

(** [text[0]] and [text[-1]], if any *)
Definition first_char (s : string) : option ascii :=
  match s with
  | EmptyString => None
  | String c _ => Some c
  end.

Fixpoint last_char (s : string) : option ascii :=
  match s with
  | EmptyString => None
  | String c EmptyString => Some c
  | String _ s' => last_char s'
  end.

(** [text.lstrip(ch)] and [text.rstrip(ch)] for a one-character set *)
Fixpoint str_lstrip (ch : ascii) (s : string) : string :=
  match s with
  | EmptyString => EmptyString
  | String c s' => if Ascii.eqb c ch then str_lstrip ch s' else s
  end.

Fixpoint str_rstrip (ch : ascii) (s : string) : string :=
  match s with
  | EmptyString => EmptyString
  | String c s' =>
      match str_rstrip ch s' with
      | EmptyString => if Ascii.eqb c ch then EmptyString else String c EmptyString
      | r => String c r
      end
  end.

(** [text.strip(ch)] *)
Definition str_strip (ch : ascii) (s : string) : string :=
  str_rstrip ch (str_lstrip ch s).

(** [text.find(ch)]: the index of the first occurrence, if any *)
Fixpoint str_find (ch : ascii) (s : string) : option nat :=
  match s with
  | EmptyString => None
  | String c s' => if Ascii.eqb c ch then Some O else option_map S (str_find ch s')
  end.

(** [text.rfind(ch)]: the index of the last occurrence, if any *)
Fixpoint str_rfind (ch : ascii) (s : string) : option nat :=
  match s with
  | EmptyString => None
  | String c s' =>
      match str_rfind ch s' with
      | Some i => Some (S i)
      | None => if Ascii.eqb c ch then Some O else None
      end
  end.

(** [str(n)] for a natural number *)
Definition str_of_nat (n : nat) : string :=
  NilZero.string_of_uint (Nat.to_uint n).

(** Reading a text file opened with the default [newline=None] turns
    [\r\n] and a lone [\r] into [\n]. *)
Definition CR : ascii := ascii_of_nat 13.
Definition LF : ascii := ascii_of_nat 10.

Fixpoint universal_newlines (s : string) : string :=
  match s with
  | EmptyString => EmptyString
  | String c s' =>
      if Ascii.eqb c CR then
        match s' with
        | String d s'' =>
            if Ascii.eqb d LF then String LF (universal_newlines s'')
            else String LF (universal_newlines s')
        | EmptyString => String LF EmptyString
        end
      else String c (universal_newlines s')
  end.

(** ** Exceptions and results *)

(** The exception classes the modelled code can meet.  All but
    [UnicodeDecodeError] and [RecursionError] derive from [OSError], of
    which [IOError] is an alias. *)
Inductive exn :=
  | FileNotFoundError
  | PermissionError
  | IsADirectoryError
  | NotADirectoryError
  | FileExistsError
  | BadGzipFile
  | UnicodeDecodeError
  | RecursionError.

Definition exn_name (e : exn) : string :=
  match e with
  | FileNotFoundError => "FileNotFoundError"
  | PermissionError => "PermissionError"
  | IsADirectoryError => "IsADirectoryError"
  | NotADirectoryError => "NotADirectoryError"
  | FileExistsError => "FileExistsError"
  | BadGzipFile => "BadGzipFile"
  | UnicodeDecodeError => "UnicodeDecodeError"
  | RecursionError => "RecursionError"
  end.

(** [isinstance(e, IOError)] *)
Definition is_IOError (e : exn) : bool :=
  match e with
  | UnicodeDecodeError | RecursionError => false
  | _ => true
  end.

Inductive result (A : Type) :=
  | Ok (a : A)
  | Raise (e : exn).
Arguments Ok {A} a.
Arguments Raise {A} e.

(** ** The file tree *)

(** The bytes of a file: the UTF-8 encoding of a text, or the gzip
    compression of other bytes. *)
Inductive blob :=
  | Text (s : string)
  | Gzip (b : blob).

(** A regular file with its read and write permission, or a directory.
    Directories can always be searched and written to; there are no
    symbolic links. *)
#[warnings="-register-all"]
Inductive node :=
  | File (readable writable : bool) (data : blob)
  | Dir (entries : list (string * node)).

Fixpoint assoc {A : Type} (k : string) (l : list (string * A)) : option A :=
  match l with
  | [] => None
  | (k', v) :: l' => if String.eqb k k' then Some v else assoc k l'
  end.

(** [d[k] = v] on an insertion-ordered dictionary: an existing key keeps its
    position, a new key goes last. *)
Fixpoint assoc_set {A : Type} (k : string) (v : A) (l : list (string * A))
  : list (string * A) :=
  match l with
  | [] => [(k, v)]
  | (k', v') :: l' =>
      if String.eqb k k' then (k, v) :: l' else (k', v') :: assoc_set k v l'
  end.

Fixpoint assoc_del {A : Type} (k : string) (l : list (string * A))
  : list (string * A) :=
  match l with
  | [] => []
  | (k', v') :: l' =>
      if String.eqb k k' then l' else (k', v') :: assoc_del k l'
  end.

(** What following an absolute path from the root finds. *)
Inductive stat :=
  | Found (n : node)
  | NoEnt
  | NotDir.

Fixpoint walk (n : node) (p : list string) : stat :=
  match p with
  | [] => Found n
  | c :: p' =>
      match n with
      | File _ _ _ => NotDir
      | Dir es =>
          match assoc c es with
          | Some m => walk m p'
          | None => NoEnt
          end
      end
  end.

(** [path.exists()] and [path.is_file()] *)
Definition exists_ (root : node) (p : list string) : bool :=
  match walk root p with
  | Found _ => true
  | _ => false
  end.

Definition is_file (root : node) (p : list string) : bool :=
  match walk root p with
  | Found (File _ _ _) => true
  | _ => false
  end.

(** Put [new] at [p]; the parent of [p] has to be a directory. *)
Fixpoint put (n : node) (p : list string) (new : node) : option node :=
  match p with
  | [] => Some new
  | c :: p' =>
      match n with
      | File _ _ _ => None
      | Dir es =>
          match p', assoc c es with
          | [], _ => Some (Dir (assoc_set c new es))
          | _, Some m =>
              match put m p' new with
              | Some m' => Some (Dir (assoc_set c m' es))
              | None => None
              end
          | _, None => None
          end
      end
  end.

(** Remove the entry at [p], if there is one. *)
Fixpoint remove (n : node) (p : list string) : node :=
  match p with
  | [] => n
  | c :: p' =>
      match n with
      | File _ _ _ => n
      | Dir es =>
          match p', assoc c es with
          | [], _ => Dir (assoc_del c es)
          | _, Some m => Dir (assoc_set c (remove m p') es)
          | _, None => n
          end
      end
  end.

(** [directory.mkdir(parents=True, exist_ok=True)] *)
Fixpoint mkdir_p (n : node) (p : list string) : result node :=
  match p with
  | [] =>
      match n with
      | Dir _ => Ok n
      | File _ _ _ => Raise FileExistsError
      end
  | c :: p' =>
      match n with
      | File _ _ _ => Raise NotADirectoryError
      | Dir es =>
          let child := match assoc c es with Some m => m | None => Dir [] end in
          match mkdir_p child p' with
          | Ok m' => Ok (Dir (assoc_set c m' es))
          | Raise e => Raise e
          end
      end
  end.

(** [path.parent] and [path.name] of an absolute path *)
Definition parent (p : list string) : list string := removelast p.
Definition name (p : list string) : string := List.last p "".

(** Opening a file for reading gives its bytes. *)
Definition open_rb (root : node) (p : list string) : result blob :=
  match walk root p with
  | Found (File r _ d) => if r then Ok d else Raise PermissionError
  | Found (Dir _) => Raise IsADirectoryError
  | NoEnt => Raise FileNotFoundError
  | NotDir => Raise NotADirectoryError
  end.

(** Opening a file for writing creates or truncates it; the file then
    holds [d]. *)
Definition open_wb (root : node) (p : list string) (d : blob) : result node :=
  match walk root p with
  | Found (File r w _) =>
      if w then
        match put root p (File r w d) with
        | Some root' => Ok root'
        | None => Raise NotADirectoryError
        end
      else Raise PermissionError
  | Found (Dir _) => Raise IsADirectoryError
  | NotDir => Raise NotADirectoryError
  | NoEnt =>
      match walk root (parent p) with
      | Found (Dir _) =>
          match put root p (File true true d) with
          | Some root' => Ok root'
          | None => Raise NotADirectoryError
          end
      | Found (File _ _ _) | NotDir => Raise NotADirectoryError
      | NoEnt => Raise FileNotFoundError
      end
  end.

(** [file.read()] on a file opened with [encoding='utf-8']: compressed
    bytes are not valid UTF-8. *)
Definition decode (d : blob) : result string :=
  match d with
  | Text s => Ok (universal_newlines s)
  | Gzip _ => Raise UnicodeDecodeError
  end.

(** Reading through [gzip.open]: an empty file reads as empty, other
    uncompressed bytes are refused. *)
Definition gunzip (d : blob) : result blob :=
  match d with
  | Gzip b => Ok b
  | Text EmptyString => Ok (Text EmptyString)
  | Text _ => Raise BadGzipFile
  end.

(** ** Program state *)

(** An instance of [BudoTrimmer]; [replacements] and [validations] are
    [None] when the constructor got no such argument. *)
Record BudoTrimmer := {
  target_url : string;
  start : string;
  end_ : string;
  replacements : option (list (string * string));
  validations : option (list string)
}.

(** Severities of [logging]. *)
Inductive level := DEBUG | INFO | WARNING | ERROR | CRITICAL.

(** The class attributes that make up the mutable state of a run, the
    file tree, and what has been observed of the run: the records logged
    through [BudoLogger] and the URLs requested from the network, both
    oldest first. *)
Record state := {
  fs : node;
  _webcache : gmap string string;
  _trimmer_registry : list (string * BudoTrimmer);
  _in_recursion_loop : bool;
  log : list (level * string);
  requests : list string
}.

Definition set_fs (f : node) (s : state) : state :=
  {| fs := f; _webcache := _webcache s; _trimmer_registry := _trimmer_registry s;
     _in_recursion_loop := _in_recursion_loop s; log := log s; requests := requests s |}.
Definition set_webcache (w : gmap string string) (s : state) : state :=
  {| fs := fs s; _webcache := w; _trimmer_registry := _trimmer_registry s;
     _in_recursion_loop := _in_recursion_loop s; log := log s; requests := requests s |}.
Definition set_trimmer_registry (r : list (string * BudoTrimmer)) (s : state) : state :=
  {| fs := fs s; _webcache := _webcache s; _trimmer_registry := r;
     _in_recursion_loop := _in_recursion_loop s; log := log s; requests := requests s |}.
Definition set_in_recursion_loop (b : bool) (s : state) : state :=
  {| fs := fs s; _webcache := _webcache s; _trimmer_registry := _trimmer_registry s;
     _in_recursion_loop := b; log := log s; requests := requests s |}.
Definition set_log (l : list (level * string)) (s : state) : state :=
  {| fs := fs s; _webcache := _webcache s; _trimmer_registry := _trimmer_registry s;
     _in_recursion_loop := _in_recursion_loop s; log := l; requests := requests s |}.
Definition set_requests (r : list string) (s : state) : state :=
  {| fs := fs s; _webcache := _webcache s; _trimmer_registry := _trimmer_registry s;
     _in_recursion_loop := _in_recursion_loop s; log := log s; requests := r |}.

(** ** The monad of methods *)

Definition M (A : Type) : Type := state -> result A * state.

Definition ret {A : Type} (a : A) : M A := fun s => (Ok a, s).

Definition bind {A B : Type} (m : M A) (k : A -> M B) : M B :=
  fun s =>
    match m s with
    | (Ok a, s') => k a s'
    | (Raise e, s') => (Raise e, s')
    end.

Definition raise {A : Type} (e : exn) : M A := fun s => (Raise e, s).

(** [try: m  except ...: h e] *)
Definition try_except {A : Type} (m : M A) (h : exn -> M A) : M A :=
  fun s =>
    match m s with
    | (Ok a, s') => (Ok a, s')
    | (Raise e, s') => h e s'
    end.

Definition get {A : Type} (proj : state -> A) : M A := fun s => (Ok (proj s), s).
Definition modify (f : state -> state) : M unit := fun s => (Ok tt, f s).

(** Lift an operation on the file tree that gives a value. *)
Definition lift {A : Type} (r : result A) : M A := fun s => (r, s).

Declare Scope m_scope.
Delimit Scope m_scope with M.
Notation "x <- m ;; k" := (bind m (fun x => k))
  (at level 100, m at next level, right associativity) : m_scope.
Notation "m ;;; k" := (bind m (fun _ => k))
  (at level 100, right associativity) : m_scope.
Local Open Scope m_scope.

(** ** BudoConfig *)

Record BudoConfig := {
  workspace_path : list string;
  compressed_folder_name : string;
  uncompressed_folder_name : string;
  feature_flag_try_write_compressed_backups : bool;
  feature_flag_try_read_compressed_backups : bool;
  html_webcache_folder : list string;
  feature_flag_read_webcache : bool;
  feature_flag_write_webcache : bool
}.

(** The values the class is declared with, for a working directory [cwd]. *)
Definition default_config (cwd : list string) : BudoConfig := {|
  workspace_path := cwd;
  compressed_folder_name := "compressed_backups";
  uncompressed_folder_name := "uncompressed_files";
  feature_flag_try_write_compressed_backups := true;
  feature_flag_try_read_compressed_backups := true;
  html_webcache_folder := cwd ++ ["data"; "webcache"];
  feature_flag_read_webcache := true;
  feature_flag_write_webcache := true
|}.

(** ** BudoLogger *)

Definition emit (lv : level) (message : string) : M unit :=
  modify (fun s => set_log (log s ++ [(lv, message)]) s).

Definition warning (message : string) : M unit := emit WARNING message.
Definition error (message : string) : M unit := emit ERROR message.

(** [str(path)] of an absolute path *)
Definition path_str (p : list string) : string :=
  "/" ++ str_join "/" p.

(** ** BudoPersistence *)

(** A [pathlib.Path]: absolute, or relative to the working directory.
    Paths have no [..] segments, so [path.resolve()] leaves an absolute
    path as it is. *)
Inductive Path :=
  | Abs (p : list string)
  | Rel (p : list string).

Definition parts (path : Path) : list string :=
  match path with Abs p | Rel p => p end.

Definition is_absolute (path : Path) : bool :=
  match path with Abs _ => true | Rel _ => false end.

(** The interpreter's bound on nested calls. *)
Definition recursion_limit : nat := 1000.

Section Persistence.

Variable cfg : BudoConfig.

Definition _resolve_path (path : Path) : M Path :=
  let path := if is_absolute path then path else Abs (workspace_path cfg ++ parts path) in
  let directory := parent (parts path) in
  root <- get fs;;
  (if negb (exists_ root directory) then
     root' <- lift (mkdir_p root directory);;
     modify (set_fs root')
   else ret tt);;;
  ret path.

Definition _add_subfolder_to_end_of_path (path : Path) (subfolder : string) : M Path :=
  path <- _resolve_path path;;
  root <- get fs;;
  if is_file root (parts path) then
    ret (Abs (parent (parts path) ++ [subfolder] ++ [name (parts path)]))
  else
    ret (Abs (parts path ++ [subfolder])).

Definition _generate_compressed_subpath (path : Path) : M Path :=
  let compressed_subfolder := compressed_folder_name cfg in
  _add_subfolder_to_end_of_path path compressed_subfolder.

Definition _generate_uncompressed_subpath (path : Path) : M Path :=
  let uncompressed_subfolder := uncompressed_folder_name cfg in
  _add_subfolder_to_end_of_path path uncompressed_subfolder.

(** The [with] blocks of [try_compress_file]: the source is opened, then
    the target is created or truncated, then the bytes are copied. *)
Definition copy_compressed (src dst : list string) : M unit :=
  root <- get fs;;
  _ <- lift (open_rb root src);;
  root1 <- lift (open_wb root dst (Text ""));;
  modify (set_fs root1);;;
  b <- lift (open_rb root1 src);;
  root2 <- lift (open_wb root1 dst (Gzip b));;
  modify (set_fs root2).

(** The [with] blocks of [try_decompress_file]: a source that is not
    gzip data is found out at the first read, after the target was
    created or truncated. *)
Definition copy_decompressed (src dst : list string) : M unit :=
  root <- get fs;;
  _ <- lift (open_rb root src);;
  root1 <- lift (open_wb root dst (Text ""));;
  modify (set_fs root1);;;
  c <- lift (open_rb root1 src);;
  b <- lift (gunzip c);;
  root2 <- lift (open_wb root1 dst b);;
  modify (set_fs root2).

Definition try_compress_file (path : Path) : M bool :=
  compressed_path <- _generate_compressed_subpath path;;
  uncompressed_path <- _generate_uncompressed_subpath path;;
  try_except
    (copy_compressed (parts uncompressed_path) (parts compressed_path);;;
     ret true)
    (fun e =>
       match e with
       | FileNotFoundError =>
           warning ("File not found for compression: " ++ path_str (parts uncompressed_path));;;
           ret false
       | PermissionError =>
           error ("Permission denied when compressing " ++ path_str (parts path));;;
           ret false
       | _ =>
           if is_IOError e then
             error ("IO error occurred while compressing " ++ path_str (parts path)
                    ++ ": " ++ exn_name e);;;
             ret false
           else raise e
       end).

Definition try_decompress_file (path : Path) : M bool :=
  compressed_path <- _generate_compressed_subpath path;;
  uncompressed_path <- _generate_uncompressed_subpath path;;
  try_except
    (copy_decompressed (parts compressed_path) (parts uncompressed_path);;;
     ret true)
    (fun e =>
       match e with
       | FileNotFoundError =>
           warning ("Compressed file not found for decompression: "
                    ++ path_str (parts compressed_path));;;
           ret false
       | PermissionError =>
           error ("Permission denied when decompressing " ++ path_str (parts path));;;
           ret false
       | _ =>
           if is_IOError e then
             error ("IO error occurred while decompressing " ++ path_str (parts path)
                    ++ ": " ++ exn_name e);;;
             ret false
           else raise e
       end).

(** [_try_recursive_call], with the method it calls back as [read]. *)
Definition _try_recursive_call_with (read : Path -> bool -> M string)
    (path : Path) (missing_ok : bool) : M string :=
  loop <- get _in_recursion_loop;;
  text <- (if negb loop then
             modify (set_in_recursion_loop true);;;
             text <- read path missing_ok;;
             modify (set_in_recursion_loop false);;;
             ret text
           else ret "");;
  modify (set_in_recursion_loop false);;;
  ret text.

(** [read_textfile] with [depth] nested calls left before the interpreter
    gives up. *)
Fixpoint read_textfile_rec (depth : nat) (path : Path) (missing_ok : bool) : M string :=
  match depth with
  | O => raise RecursionError
  | S depth' =>
      path <- _resolve_path path;;
      try_except
        (root <- get fs;;
         d <- lift (open_rb root (parts path));;
         lift (decode d))
        (fun e =>
           match e with
           | FileNotFoundError =>
               recovered <-
                 (if feature_flag_try_read_compressed_backups cfg then
                    try_decompress_file path
                  else ret false);;
               if recovered then
                 _try_recursive_call_with (read_textfile_rec depth') path missing_ok
               else if negb missing_ok then
                 error ("File not found: " ++ path_str (parts path));;;
                 raise e
               else ret ""
           | PermissionError =>
               error ("Permission denied: " ++ path_str (parts path));;;
               raise e
           | _ =>
               if is_IOError e then
                 error ("IO error occurred while reading " ++ path_str (parts path)
                        ++ ": " ++ exn_name e);;;
                 raise e
               else raise e
           end)
  end.

Definition read_textfile (path : Path) (missing_ok : bool) : M string :=
  read_textfile_rec recursion_limit path missing_ok.

Definition _try_recursive_call (path : Path) (missing_ok : bool) : M string :=
  _try_recursive_call_with read_textfile path missing_ok.

Definition try_read_textfile (path : Path) : M string :=
  let file_missing_is_ok := true in
  read_textfile path file_missing_is_ok.

Definition write_textfile (path : Path) (content : string) : M unit :=
  path <- _resolve_path path;;
  try_except
    (root <- get fs;;
     root' <- lift (open_wb root (parts path) (Text content));;
     modify (set_fs root');;;
     (if negb (String.eqb content "") then ret tt
      else warning ("Empty file created at " ++ path_str (parts path)));;;
     if feature_flag_try_write_compressed_backups cfg then
       _ <- try_compress_file path;; ret tt
     else ret tt)
    (fun e =>
       match e with
       | PermissionError =>
           error ("Permission denied when writing to " ++ path_str (parts path));;;
           raise e
       | _ =>
           if is_IOError e then
             error ("IO error occurred while writing to " ++ path_str (parts path)
                    ++ ": " ++ exn_name e);;;
             raise e
           else raise e
       end).

End Persistence.

(** ** BudoTrimmer *)

(** [a == b] on two dictionaries: as many items, and every item of [a] is
    an item of [b]. *)
Definition dict_eqb (a b : list (string * string)) : bool :=
  Nat.eqb (length a) (length b) &&
  forallb (fun kv => match assoc (fst kv) b with
                     | Some v' => String.eqb (snd kv) v'
                     | None => false
                     end) a.

Fixpoint list_eqb (a b : list string) : bool :=
  match a, b with
  | [], [] => true
  | x :: a', y :: b' => String.eqb x y && list_eqb a' b'
  | _, _ => false
  end.

(** [a == b] on two optional values *)
Definition optional_eqb {A : Type} (eqb : A -> A -> bool) (a b : option A) : bool :=
  match a, b with
  | None, None => true
  | Some x, Some y => eqb x y
  | _, _ => false
  end.

Definition _trimmers_are_equal (trimmer1 trimmer2 : BudoTrimmer) : bool :=
  let equal_url := String.eqb (target_url trimmer1) (target_url trimmer2) in
  let equal_start := String.eqb (start trimmer1) (start trimmer2) in
  let equal_end := String.eqb (end_ trimmer1) (end_ trimmer2) in
  let equal_replace := optional_eqb dict_eqb (replacements trimmer1) (replacements trimmer2) in
  let equal_validate := optional_eqb list_eqb (validations trimmer1) (validations trimmer2) in
  equal_url && equal_start && equal_end && equal_replace && equal_validate.

(** [[i for i in range(len(text)) if text.startswith(marker, i)]] *)
Definition indices (text marker : string) : list nat :=
  List.filter (fun i => startswith text marker i) (seq 0 (String.length text)).

Definition _trim_start (text start : string) : M string :=
  let start_indices := indices text start in
  if Nat.eqb (length start_indices) 0 then
    warning "'start' string not found in the text.";;;
    ret text
  else if Nat.ltb 1 (length start_indices) then
    warning "'start' string found multiple times in the text.";;;
    ret text
  else
    let start_index := nth 0 start_indices 0 in
    ret (str_drop start_index text).

Definition _trim_end (text end_ : string) : M string :=
  let end_indices := indices text end_ in
  if Nat.eqb (length end_indices) 0 then
    warning "'end' string not found in the text.";;;
    ret text
  else if Nat.ltb 1 (length end_indices) then
    warning "'end' string found multiple times in the text.";;;
    ret text
  else
    let end_index := List.last end_indices 0 in
    ret (str_take (end_index + String.length end_) text).

Definition _trim_start_and_end (text_to_trim start end_ : string) : M string :=
  text_to_trim <- _trim_start text_to_trim start;;
  text_to_trim <- _trim_end text_to_trim end_;;
  ret text_to_trim.

Definition _replace_substrings (text_to_trim : string)
    (replacements : option (list (string * string))) : string :=
  match replacements with
  | Some items =>
      fold_left (fun text on => str_replace text (fst on) (snd on)) items text_to_trim
  | None => text_to_trim
  end.

Fixpoint validate_each (text_to_trim : string) (validations : list string) : M unit :=
  match validations with
  | [] => ret tt
  | validation :: rest =>
      (if negb (str_in validation text_to_trim) then
         warning ("Validation string '" ++ validation ++ "' not found in the text")
       else ret tt);;;
      validate_each text_to_trim rest
  end.

Definition _validate_remaining_text (text_to_trim : string)
    (validations : option (list string)) : M string :=
  match validations with
  | Some vs => validate_each text_to_trim vs;;; ret text_to_trim
  | None => ret text_to_trim
  end.

Definition trim_and_validate (self : BudoTrimmer) (text_to_trim : string) : M string :=
  trimmed_text <- _trim_start_and_end text_to_trim (start self) (end_ self);;
  let replaced_text := _replace_substrings trimmed_text (replacements self) in
  validated_text <- _validate_remaining_text replaced_text (validations self);;
  ret validated_text.


(** The loop of [trim_html] that collects the registered trimmers whose
    [target_url] is a substring of [url]. *)
Definition matching_trimmers (url : string) (registry : list (string * BudoTrimmer))
  : list BudoTrimmer :=
  map snd (List.filter (fun kv => str_in (fst kv) url) registry).

Definition trim_html (url html : string) (trimmer : option BudoTrimmer) : M string :=
  match trimmer with
  | Some trimmer => trim_and_validate trimmer html
  | None =>
      registry <- get _trimmer_registry;;
      let matches := matching_trimmers url registry in
      match matches with
      | [only] => (* len(matches) == 1 *) trim_and_validate only html
      | _ =>
          (if Nat.ltb 1 (length matches) then
             warning ("Url " ++ url ++ " matched " ++ str_of_nat (length matches)
                      ++ " trimmers. Trimming is skipped")
           else ret tt);;;
          ret html
      end
  end.

(** ** urllib.parse.urlparse *)

(** The result of [urlparse], with the attribute names of the library. *)
Module ParseResult.
Record t := {
  scheme : string;
  netloc : string;
  path : string;
  params : string;
  query : string;
  fragment : string
}.
End ParseResult.

Definition ascii_letters : string :=
  "abcdefghijklmnopqrstuvwxyzABCDEFGHIJKLMNOPQRSTUVWXYZ".
Definition digits : string := "0123456789".
Definition scheme_chars : string := ascii_letters ++ digits ++ "+-.".

Definition uses_params : list string :=
  [""; "ftp"; "hdl"; "prospero"; "http"; "imap"; "https"; "shttp"; "rtsp";
   "rtspu"; "sip"; "sips"; "mms"; "sftp"; "tel"].

(** The index of the first character of [s] that is in [chars], or
    [len(s)]. *)
Fixpoint find_any (chars : string) (s : string) : nat :=
  match s with
  | EmptyString => O
  | String c s' => if char_in c chars then O else S (find_any chars s')
  end.

(** [s.split(ch, 1)] when [ch] occurs in [s], else [s] and the empty
    string. *)
Definition split_once (ch : ascii) (s : string) : string * string :=
  match str_find ch s with
  | Some i => (str_take i s, str_drop (S i) s)
  | None => (s, EmptyString)
  end.

Definition _splitparams (url : string) : string * string :=
  let from := match str_rfind "/"%char url with Some j => j | None => O end in
  match str_find ";"%char (str_drop from url) with
  | Some k => (str_take (from + k) url, str_drop (S (from + k)) url)
  | None => (url, EmptyString)
  end.

(** [urlparse(url)] as CPython's [urllib.parse] computes it, for a URL
    without leading blanks and control characters and whose network
    location uses square brackets, if at all, around a valid IP literal
    (on other input the library strips characters or raises
    [ValueError]). *)
Definition urlparse (url : string) : ParseResult.t :=
  let '(scheme, url) :=
    match str_find ":"%char url with
    | Some (S i) =>
        if char_in (match url with String c _ => c | EmptyString => " "%char end) ascii_letters
           && str_all (fun c => char_in c scheme_chars) (str_take (S i) url)
        then (str_lower (str_take (S i) url), str_drop (S (S i)) url)
        else (EmptyString, url)
    | _ => (EmptyString, url)
    end in
  let '(netloc, url) :=
    if String.eqb (str_take 2 url) "//" then
      let delim := 2 + find_any "/?#" (str_drop 2 url) in
      (str_take (delim - 2) (str_drop 2 url), str_drop delim url)
    else (EmptyString, url) in
  let '(url, fragment) := split_once "#"%char url in
  let '(url, query) := split_once "?"%char url in
  let '(url, params) :=
    if existsb (String.eqb scheme) uses_params && char_in ";"%char url
    then _splitparams url else (url, EmptyString) in
  {| ParseResult.scheme := scheme; ParseResult.netloc := netloc;
     ParseResult.path := url; ParseResult.params := params;
     ParseResult.query := query; ParseResult.fragment := fragment |}.

(** ** BudoHtml *)

(** What [urlopen(url, timeout)] followed by reading and decoding the
    response comes to: a body, or a [URLError] or [HTTPError]. *)
Inductive response :=
  | Body (text : string)
  | URLError.

Definition valid_chars : string := "-_." ++ ascii_letters ++ digits.

Definition _default_webcache_file_ext : string := ".txt".

Definition _generate_foldername (url : string) : string :=
  let domain := hd EmptyString (str_split ":"%char (ParseResult.netloc (urlparse url))) in
  let domain_parts := str_split "."%char domain in
  let domain_parts := removelast domain_parts in
  let domain_parts :=
    if Nat.ltb 1 (length domain_parts)
       && String.eqb (str_lower (hd EmptyString domain_parts)) "www"
    then tl domain_parts else domain_parts in
  str_join "_" domain_parts.

(** [''.join(c if c in valid_chars else '_' for c in text)] *)
Fixpoint sanitize (text : string) : string :=
  match text with
  | EmptyString => EmptyString
  | String c text' =>
      String (if char_in c valid_chars then c else "_"%char) (sanitize text')
  end.

(** The first steps of [_generate_filename]: path and query, put together
    without a separator, less a leading ['/']. *)
Definition path_and_query (url : string) : string :=
  let parsed_url := urlparse url in
  let path_and_query := (ParseResult.path parsed_url ++ ParseResult.query parsed_url)%string in
  if String.prefix "/" path_and_query then str_drop 1 path_and_query
  else path_and_query.

Definition _generate_filename (url : string) : string :=
  let path_and_query := path_and_query url in
  let sanitized_filename := sanitize path_and_query in
  let sanitized_filename := str_replace sanitized_filename "/" "_" in
  let sanitized_filename := str_strip "_"%char sanitized_filename in
  if String.eqb sanitized_filename "" then sanitize url
  else sanitized_filename.

(** [path / segment] for a segment without a separator *)
Definition joinpath (p : list string) (segment : string) : list string :=
  if String.eqb segment "" then p else p ++ [segment].

Section Html.

Variable cfg : BudoConfig.
Variable net : string -> nat -> response.

Definition _get_path_for_cached_html (url : string) : Path :=
  let file_ext := _default_webcache_file_ext in
  let file_ext :=
    if negb (char_in "."%char file_ext) then ("." ++ file_ext)%string else file_ext in
  let file := (_generate_filename url ++ file_ext)%string in
  let folder := _generate_foldername url in
  Abs (joinpath (joinpath (html_webcache_folder cfg) folder) file).

Definition _send_request (url : string) (timeout : nat) : M string :=
  modify (fun s => set_requests (requests s ++ [url]) s);;;
  match net url timeout with
  | Body text => ret text
  | URLError =>
      error "A url or http error occurred: URLError";;;
      ret ""
  end.

Definition _write_html_to_disk (url html : string) (path : option Path) : M unit :=
  let path := match path with
              | None => _get_path_for_cached_html url
              | Some path => path
              end in
  write_textfile cfg path html.

Definition _search_url_in_local_webcache (url : string) (path : option Path) : M string :=
  if feature_flag_read_webcache cfg then
    let path := match path with
                | None => _get_path_for_cached_html url
                | Some path => path
                end in
    html <- try_read_textfile cfg path;;
    ret html
  else ret "".

Definition try_get_cached_html (url : string) (path : option Path) : M string :=
  webcache <- get _webcache;;
  match webcache !! url with
  | Some cached => ret cached
  | None =>
      cached_html <- _search_url_in_local_webcache url path;;
      if negb (String.eqb cached_html "") then
        modify (fun s => set_webcache (<[url := cached_html]> (_webcache s)) s);;;
        ret cached_html
      else ret ""
  end.

Definition cache_html_for_later (url html : string) (path : option Path) : M unit :=
  trimmed_html <- trim_html url html None;;
  modify (fun s => set_webcache (<[url := trimmed_html]> (_webcache s)) s);;;
  if feature_flag_write_webcache cfg then
    _write_html_to_disk url trimmed_html path
  else ret tt.

Definition fetch_url (url : string) (path : option Path) (timeout : nat) : M string :=
  cached_html <- try_get_cached_html url path;;
  if negb (String.eqb cached_html "") then ret cached_html
  else
    html <- _send_request url timeout;;
    cache_html_for_later url html path;;;
    ret html.

End Html.

(** ** States and relations used to state the properties *)

(** The state of a fresh process over the file tree [root]: empty cache,
    empty registry, nothing logged or requested. *)
Definition initial_state (root : node) : state :=
  {| fs := root; _webcache := ∅; _trimmer_registry := [];
     _in_recursion_loop := false; log := []; requests := [] |}.

(** The state after one more record was logged. *)
Definition logged (lv : level) (message : string) (s : state) : state :=
  set_log (log s ++ [(lv, message)]) s.

(** The absolute path that [_resolve_path] returns. *)
Definition resolved (cfg : BudoConfig) (path : Path) : list string :=
  if is_absolute path then parts path else workspace_path cfg ++ parts path.

(** The file that holds the cached text of [url]. *)
Definition cache_file (cfg : BudoConfig) (url : string) (path : option Path) : list string :=
  resolved cfg (match path with
                | None => _get_path_for_cached_html cfg url
                | Some path => path
                end).

(** A character of the class [[A-Za-z0-9._-]]. *)
Definition filename_char (c : ascii) : bool :=
  is_upper c || is_lower c || is_digit c || char_in c "._-".




(** A method keeps a relation between the state it starts in and the
    state it ends in, however it ends. *)
Definition keeps {A : Type} (R : state -> state -> Prop) (m : M A) : Prop :=
  forall s, R s (snd (m s)).

(** The state differs at most in the file tree and the log. *)
Definition tree_and_log (s s' : state) : Prop :=
  _webcache s' = _webcache s
  /\ _trimmer_registry s' = _trimmer_registry s
  /\ _in_recursion_loop s' = _in_recursion_loop s
  /\ requests s' = requests s.

(** The state differs at most in the file tree, the log and the recursion
    flag. *)
Definition memory_kept (s s' : state) : Prop :=
  _webcache s' = _webcache s
  /\ _trimmer_registry s' = _trimmer_registry s
  /\ requests s' = requests s.

(** The state differs at most in the log. *)
Definition only_log (s s' : state) : Prop :=
  fs s' = fs s /\ tree_and_log s s'.

(** A method that always returns and changes at most the log. *)
Definition quiet {A : Type} (m : M A) : Prop :=
  forall s, exists a s', m s = (Ok a, s') /\ only_log s s'.

(** ** Data for the examples: rulesets, a working directory [/w], a page
    of the item family and file trees *)

Definition item_trimmer : BudoTrimmer :=
  {| target_url := "test.com/item="; start := "<A>"; end_ := "</A>";
     replacements := None; validations := None |}.


Definition example_config : BudoConfig := default_config ["w"].

Definition example_url : string := "https://www.test.com/item=1".

Definition example_disk : node :=
  Dir [("w", Dir [("data", Dir [("webcache", Dir [("test",
    Dir [("item_1.txt", File true true (Text "<A>body</A>"))])])])])].

(** A file tree in which [write_textfile] does leave a compressed copy of
    [/w/data/notes.txt]: both backup folders exist and the uncompressed one
    already has a file of that name. *)
Definition backup_disk : node :=
  Dir [("w", Dir [("data", Dir
    [("compressed_backups", Dir []);
     ("uncompressed_files", Dir [("notes.txt", File true true (Text "hello"))])])])].

(** ** Further notions used to state properties *)

(** The path that [_add_subfolder_to_end_of_path] derives from a resolved
    path [p] in the file tree [root]. *)
Definition subfolder_path (root : node) (p : list string) (subfolder : string)
  : list string :=
  if is_file root p then parent p ++ [subfolder] ++ [name p] else p ++ [subfolder].

(** The file at [p] is not protected against reading. *)
Definition not_read_protected (root : node) (p : list string) : Prop :=
  forall w x, walk root p <> Found (File false w x).

(** Every file of [root] is a file of [root'], with the same permissions
    and bytes, except perhaps the files at the paths in [but]. *)
Definition files_kept (but : list (list string)) (root root' : node) : Prop :=
  forall p r w x,
    ~ In p but ->
    walk root p = Found (File r w x) ->
    walk root' p = Found (File r w x).




(** ** BudoHtml: fetching a list of URLs *)

Section HtmlMany.

Variable cfg : BudoConfig.
Variable net : string -> nat -> response.

(** The loop of [fetch_urls], with the dictionary filled so far. *)
Fixpoint fetch_urls_loop (urls : list string) (paths : option (list (string * Path)))
    (timeout : nat) (html_dct : list (string * string)) : M (list (string * string)) :=
  match urls with
  | [] => ret html_dct
  | url :: urls' =>
      path <- match paths with
              | Some paths =>
                  match assoc url paths with
                  | Some path => ret (Some path)
                  | None =>
                      warning ("Path for url " ++ url ++ " not found in paths dictionary");;;
                      ret None
                  end
              | None => ret None
              end;;
      html <- fetch_url cfg net url path timeout;;
      fetch_urls_loop urls' paths timeout (assoc_set url html html_dct)
  end.

Definition fetch_urls (urls : list string) (paths : option (list (string * Path)))
    (timeout : nat) : M (list (string * string)) :=
  fetch_urls_loop urls paths timeout [].

End HtmlMany.

(** What a fetch of [url] leaves alone: the registry, the recursion flag,
    the cached text of every other URL and every file except perhaps those
    at the paths in [but]. *)
Definition fetch_kept (url : string) (but : list (list string)) (s s' : state) : Prop :=
  _trimmer_registry s' = _trimmer_registry s
  /\ _in_recursion_loop s' = _in_recursion_loop s
  /\ (forall u, u <> url -> _webcache s' !! u = _webcache s !! u)
  /\ files_kept but (fs s) (fs s').

(** The two files a write to [p] can touch: [p] and its compressed copy. *)
Definition written_files (cfg : BudoConfig) (p : list string) : list (list string) :=
  [p; parent p ++ [compressed_folder_name cfg] ++ [name p]].

(** The configuration with both web cache flags switched off. *)
Definition memory_only_config : BudoConfig := {|
  workspace_path := ["w"];
  compressed_folder_name := "compressed_backups";
  uncompressed_folder_name := "uncompressed_files";
  feature_flag_try_write_compressed_backups := true;
  feature_flag_try_read_compressed_backups := true;
  html_webcache_folder := ["w"; "data"; "webcache"];
  feature_flag_read_webcache := false;
  feature_flag_write_webcache := false
|}.


(** ** BudoLogger, method by method

    The methods of the pipeline above see the logger through [emit].  The
    class itself is modelled here: the set-up that runs at the first
    message, the directories it prepares, the handlers it opens and the
    files a message goes to. *)

(** [logging.DEBUG] to [logging.CRITICAL] and [logging.NOTSET] *)
Definition levelno (lv : level) : nat :=
  match lv with
  | DEBUG => 10
  | INFO => 20
  | WARNING => 30
  | ERROR => 40
  | CRITICAL => 50
  end.

Definition NOTSET : nat := 0.

(** [logging.getLevelName(level)] *)
Definition getLevelName (level : nat) : string :=
  if (level =? 50)%nat then "CRITICAL"
  else if (level =? 40)%nat then "ERROR"
  else if (level =? 30)%nat then "WARNING"
  else if (level =? 20)%nat then "INFO"
  else if (level =? 10)%nat then "DEBUG"
  else if (level =? 0)%nat then "NOTSET"
  else ("Level " ++ str_of_nat level)%string.

(** [text.endswith(suffix)] *)
Definition endswith (text suffix : string) : bool :=
  (String.length suffix <=? String.length text)%nat
  && String.eqb (str_drop (String.length text - String.length suffix) text) suffix.

(** [path.is_relative_to(other)] for absolute paths: [other] is an initial
    part of [path]. *)
Fixpoint is_relative_to (path other : list string) : bool :=
  match other, path with
  | [], _ => true
  | c :: other', d :: path' => String.eqb c d && is_relative_to path' other'
  | _ :: _, [] => false
  end.

(** [folder.glob('*.log')]: the entries of a directory whose names end in
    [.log]; nothing when [folder] is not a directory. *)
Definition glob_log (root : node) (folder : list string) : list (list string) :=
  match walk root folder with
  | Found (Dir entries) =>
      map (fun entry => folder ++ [fst entry])
        (List.filter (fun entry => endswith (fst entry) ".log") entries)
  | _ => []
  end.

(** [shutil.rmtree(path)] for a path other than the root *)
Definition rmtree (root : node) (p : list string) : result node :=
  match walk root p with
  | Found (Dir _) => Ok (remove root p)
  | Found (File _ _ _) => Raise NotADirectoryError
  | NoEnt => Raise FileNotFoundError
  | NotDir => Raise NotADirectoryError
  end.

(** Opening a file for appending creates it when it is missing and leaves
    it as it is otherwise. *)
Definition open_ab (root : node) (p : list string) : result node :=
  match walk root p with
  | Found (File _ w _) => if w then Ok root else Raise PermissionError
  | Found (Dir _) => Raise IsADirectoryError
  | NotDir => Raise NotADirectoryError
  | NoEnt =>
      match walk root (parent p) with
      | Found (Dir _) =>
          match put root p (File true true (Text "")) with
          | Some root' => Ok root'
          | None => Raise NotADirectoryError
          end
      | Found (File _ _ _) | NotDir => Raise NotADirectoryError
      | NoEnt => Raise FileNotFoundError
      end
  end.

(** [path.is_dir()] *)
Definition is_dir (root : node) (p : list string) : bool :=
  match walk root p with
  | Found (Dir _) => true
  | _ => false
  end.

(** Neither path is an initial part of the other. *)
Definition apart (p q : list string) : Prop :=
  is_relative_to p q = false /\ is_relative_to q p = false.

Module BudoLogger.

(** What a call can raise: an [OSError] of the file system, the class's
    own exception, or the [KeyError] of a missing entry of [_loggers]. *)
Inductive exc :=
  | OSError (e : exn)
  | BudoLoggerAttemptedLoggingDuringSetupError
  | KeyError (key : string).

Inductive outcome (A : Type) :=
  | Done (a : A)
  | Fail (e : exc).
Arguments Done {A} a.
Arguments Fail {A} e.

(** A [logging.FileHandler] and a [logging.Logger], as far as the class
    uses them: the file and the level of a handler, the level and the
    handlers of a logger. *)
Record handler := {
  baseFilename : list string;
  handler_level : nat
}.

Record logger := {
  logger_level : nat;
  handlers : list handler
}.

(** The class attributes that do not change. *)
Record attrs := {
  _workspace_path : list string;
  _log_archive_folder : list string;
  _log_history_folder : list string;
  _log_session_folder : list string;
  _log_history_enable_expiration : bool;
  _log_history_expiration_hour : nat;
  _log_print_threshhold : nat
}.

(** The attributes as [BudoConfig] sets them, for a working directory
    [cwd]. *)
Definition default_attrs (cwd : list string) : attrs := {|
  _workspace_path := cwd;
  _log_archive_folder := cwd ++ ["budolib"; "logging"; "archive"];
  _log_history_folder := cwd ++ ["budolib"; "logging"; "history"];
  _log_session_folder := cwd ++ ["budolib"; "logging"; "session"];
  _log_history_enable_expiration := false;
  _log_history_expiration_hour := 48;
  _log_print_threshhold := levelno INFO
|}.

(** The state of a run: the file tree, the lines printed, the loggers of
    the [logging] module by name, the class attributes [_loggers] (each
    value the name of a logger of the module), [_setup_in_progress] and
    [_setup_done], the lines the handlers have appended to their files and
    the number of records made so far.  Printed lines and appended lines
    are in order, oldest first. *)
Record st := {
  tree : node;
  console : list string;
  loggers : list (string * logger);
  _loggers : list (string * string);
  _setup_in_progress : bool;
  _setup_done : bool;
  appended : list (list string * string);
  records : nat
}.

Definition set_tree (x : node) (s : st) : st :=
  {| tree := x; console := console s; loggers := loggers s; _loggers := _loggers s;
     _setup_in_progress := _setup_in_progress s; _setup_done := _setup_done s;
     appended := appended s; records := records s |}.
Definition set_console (x : list string) (s : st) : st :=
  {| tree := tree s; console := x; loggers := loggers s; _loggers := _loggers s;
     _setup_in_progress := _setup_in_progress s; _setup_done := _setup_done s;
     appended := appended s; records := records s |}.
Definition set_loggers (x : list (string * logger)) (s : st) : st :=
  {| tree := tree s; console := console s; loggers := x; _loggers := _loggers s;
     _setup_in_progress := _setup_in_progress s; _setup_done := _setup_done s;
     appended := appended s; records := records s |}.
Definition set__loggers (x : list (string * string)) (s : st) : st :=
  {| tree := tree s; console := console s; loggers := loggers s; _loggers := x;
     _setup_in_progress := _setup_in_progress s; _setup_done := _setup_done s;
     appended := appended s; records := records s |}.
Definition set_setup_in_progress (x : bool) (s : st) : st :=
  {| tree := tree s; console := console s; loggers := loggers s; _loggers := _loggers s;
     _setup_in_progress := x; _setup_done := _setup_done s;
     appended := appended s; records := records s |}.
Definition set_setup_done (x : bool) (s : st) : st :=
  {| tree := tree s; console := console s; loggers := loggers s; _loggers := _loggers s;
     _setup_in_progress := _setup_in_progress s; _setup_done := x;
     appended := appended s; records := records s |}.
Definition set_appended (x : list (list string * string)) (s : st) : st :=
  {| tree := tree s; console := console s; loggers := loggers s; _loggers := _loggers s;
     _setup_in_progress := _setup_in_progress s; _setup_done := _setup_done s;
     appended := x; records := records s |}.
Definition set_records (x : nat) (s : st) : st :=
  {| tree := tree s; console := console s; loggers := loggers s; _loggers := _loggers s;
     _setup_in_progress := _setup_in_progress s; _setup_done := _setup_done s;
     appended := appended s; records := x |}.

(** The state of a fresh process over the file tree [root]. *)
Definition start (root : node) : st :=
  {| tree := root; console := []; loggers := []; _loggers := [];
     _setup_in_progress := false; _setup_done := false;
     appended := []; records := 0 |}.

(** Methods: from a state to an outcome and a state. *)
Definition L (A : Type) : Type := st -> outcome A * st.

Definition ret {A : Type} (a : A) : L A := fun s => (Done a, s).

Definition bind {A B : Type} (m : L A) (k : A -> L B) : L B :=
  fun s =>
    match m s with
    | (Done a, s') => k a s'
    | (Fail e, s') => (Fail e, s')
    end.

Definition raise {A : Type} (e : exc) : L A := fun s => (Fail e, s).
Definition get {A : Type} (proj : st -> A) : L A := fun s => (Done (proj s), s).
Definition modify (f : st -> st) : L unit := fun s => (Done tt, f s).

(** An operation on the file tree that gives a new tree or an
    [OSError]. *)
Definition on_tree (f : node -> result node) : L unit :=
  fun s =>
    match f (tree s) with
    | Ok root' => (Done tt, set_tree root' s)
    | Raise e => (Fail (OSError e), s)
    end.

Declare Scope l_scope.
Delimit Scope l_scope with L.
Notation "x <- m ;; k" := (bind m (fun x => k))
  (at level 100, m at next level, right associativity) : l_scope.
Notation "m ;;; k" := (bind m (fun _ => k))
  (at level 100, right associativity) : l_scope.
Local Open Scope l_scope.

(** [print(line)] *)
Definition print (line : string) : L unit :=
  modify (fun s => set_console (console s ++ [line]) s).

(** The logger [logging.getLogger(name)] gives: the one of that name, or a
    new one without level and handlers. *)
Definition find_logger (name : string) (registered : list (string * logger)) : logger :=
  match assoc name registered with
  | Some lg => lg
  | None => {| logger_level := NOTSET; handlers := [] |}
  end.

Definition getLogger (name : string) : L string :=
  modify (fun s => set_loggers (assoc_set name (find_logger name (loggers s)) (loggers s)) s);;;
  ret name.

Definition setLevel (name : string) (level : nat) : L unit :=
  modify (fun s =>
    let lg := find_logger name (loggers s) in
    set_loggers (assoc_set name {| logger_level := level; handlers := handlers lg |}
                   (loggers s)) s).

Definition addHandler (name : string) (h : handler) : L unit :=
  modify (fun s =>
    let lg := find_logger name (loggers s) in
    set_loggers (assoc_set name {| logger_level := logger_level lg;
                                   handlers := handlers lg ++ [h] |}
                   (loggers s)) s).

(** [logger.getEffectiveLevel()]: a logger without a level of its own has
    that of the root logger, which is [WARNING]. *)
Definition getEffectiveLevel (lg : logger) : nat :=
  if (logger_level lg =? NOTSET)%nat then levelno WARNING else logger_level lg.

Section Methods.

Variable self : attrs.

(** The [asctime] of the records of the run, by their number. *)
Variable asctime : nat -> string.

(** Whether the entry at a path was last modified more than the given
    number of hours before the set-up runs. *)
Variable expired : list string -> nat -> bool.

(** The formatter's ['%(asctime)s - %(name)s - %(levelname)s - %(message)s']
    and the handler's line end *)
Definition format (n : nat) (name : string) (level : nat) (message : string) : string :=
  (asctime n ++ " - " ++ name ++ " - " ++ getLevelName level ++ " - " ++ message
   ++ String LF "")%string.

(** [logger.log(level, message)] on the logger of the module called
    [name]: a record that passes the level of the logger goes to each of
    its handlers whose level it passes, and a handler appends one line to
    its file.  The root logger has no handlers. *)
Definition log (name : string) (level : nat) (message : string) : L unit :=
  registered <- get loggers;;
  let lg := find_logger name registered in
  if (getEffectiveLevel lg <=? level)%nat then
    n <- get records;;
    modify (set_records (S n));;;
    let line := format n name level message in
    let files :=
      map baseFilename (List.filter (fun h => (handler_level h <=? level)%nat) (handlers lg)) in
    modify (fun s => set_appended (appended s ++ map (fun file => (file, line)) files) s)
  else ret tt.

(** [BudoLogger._loggers[key]] *)
Definition getitem (key : string) : L string :=
  entries <- get _loggers;;
  match assoc key entries with
  | Some lg => ret lg
  | None => raise (KeyError key)
  end.

Definition _convert_level_to_classification (level : nat) : string :=
  if (level =? levelno DEBUG)%nat then "Debug"
  else if (level =? levelno INFO)%nat then "Info"
  else if (level =? levelno WARNING)%nat then "Warning"
  else if (level =? levelno ERROR)%nat then "Error"
  else if (level =? levelno CRITICAL)%nat then "Critical"
  else "Unknown".

Definition _try_console_print_message (level : nat) (message : string) : L unit :=
  if (_log_print_threshhold self <=? level)%nat then
    let classification := _convert_level_to_classification level in
    print ("Budo" ++ classification ++ ": " ++ message)
  else ret tt.

Definition _delete_folder (path : list string) : L unit :=
  if is_relative_to path (_workspace_path self) then
    on_tree (fun root => rmtree root path)
  else ret tt.

Definition _severity_level_meets_folder_threshhold (level : nat) (folder : list string)
  : bool :=
  let severity_threshold :=
    if list_eqb folder (_log_history_folder self) then levelno INFO
    else if list_eqb folder (_log_archive_folder self) then levelno WARNING
    else NOTSET in
  (severity_threshold <=? level)%nat.

Definition _prepare_directories : L unit :=
  let session_folder := _log_session_folder self in
  let history_folder := _log_history_folder self in
  let archive_folder := _log_archive_folder self in
  root <- get tree;;
  (if exists_ root session_folder then _delete_folder session_folder else ret tt);;;
  on_tree (fun root => mkdir_p root session_folder);;;
  (if _log_history_enable_expiration self then
     let expiration_hour := _log_history_expiration_hour self in
     root <- get tree;;
     (if exists_ root history_folder then
        if existsb (fun log_file => expired log_file expiration_hour)
             (glob_log root history_folder)
        then _delete_folder history_folder
        else ret tt
      else ret tt);;;
     on_tree (fun root => mkdir_p root history_folder)
   else ret tt);;;
  on_tree (fun root => mkdir_p root archive_folder).

(** The inner loop of [_run_setup], over the folders still to come. *)
Fixpoint add_handlers (level : nat) (level_name logger : string)
    (folders : list (list string)) : L unit :=
  match folders with
  | [] => ret tt
  | folder :: folders' =>
      (if _severity_level_meets_folder_threshhold level folder then
         let file := folder ++ [(level_name ++ ".log")%string] in
         on_tree (fun root => open_ab root file);;;
         addHandler logger {| baseFilename := file; handler_level := level |};;;
         modify (fun s => set__loggers (assoc_set level_name logger (_loggers s)) s)
       else ret tt);;;
      add_handlers level level_name logger folders'
  end.

(** The outer loop of [_run_setup], over the levels still to come. *)
Fixpoint add_loggers (levels : list nat) (folders : list (list string)) : L unit :=
  match levels with
  | [] => ret tt
  | level :: levels' =>
      let level_name := str_lower (getLevelName level) in
      logger <- getLogger level_name;;
      setLevel logger level;;;
      add_handlers level level_name logger folders;;;
      add_loggers levels' folders
  end.

Definition _run_setup : L unit :=
  _prepare_directories;;;
  let levels :=
    [levelno DEBUG; levelno INFO; levelno WARNING; levelno ERROR; levelno CRITICAL] in
  let folders :=
    [_log_archive_folder self; _log_history_folder self; _log_session_folder self] in
  add_loggers levels folders.

Definition _try_run_setup : L unit :=
  done <- get _setup_done;;
  if negb done then
    in_progress <- get _setup_in_progress;;
    (if in_progress then raise BudoLoggerAttemptedLoggingDuringSetupError else ret tt);;;
    modify (set_setup_in_progress true);;;
    _run_setup;;;
    modify (set_setup_in_progress false);;;
    modify (set_setup_done true)
  else ret tt.

Definition _try_print_and_setup (level : nat) (message : string) : L unit :=
  _try_console_print_message level message;;;
  _try_run_setup.

Definition debug (message : string) : L unit :=
  _try_print_and_setup (levelno DEBUG) message;;;
  logger <- getitem "debug";;
  log logger (levelno DEBUG) message.

Definition info (message : string) : L unit :=
  _try_print_and_setup (levelno INFO) message;;;
  logger <- getitem "info";;
  log logger (levelno INFO) message.

Definition warning (message : string) : L unit :=
  _try_print_and_setup (levelno WARNING) message;;;
  logger <- getitem "warning";;
  log logger (levelno WARNING) message.

Definition error (message : string) : L unit :=
  _try_print_and_setup (levelno ERROR) message;;;
  logger <- getitem "error";;
  log logger (levelno ERROR) message.

Definition critical (message : string) : L unit :=
  _try_print_and_setup (levelno CRITICAL) message;;;
  logger <- getitem "critical";;
  log logger (levelno CRITICAL) message.

(** The method of the class for a level. *)
Definition call (lv : level) : string -> L unit :=
  match lv with
  | DEBUG => debug
  | INFO => info
  | WARNING => warning
  | ERROR => error
  | CRITICAL => critical
  end.

End Methods.

(** ** Notions used to state the properties of the logger *)

Definition all_levels : list level := [DEBUG; INFO; WARNING; ERROR; CRITICAL].

(** The name [_run_setup] gives the logger of a level, which is also its
    key in [_loggers]. *)
Definition level_name (lv : level) : string := str_lower (getLevelName (levelno lv)).

(** The files a record of a level goes to: that of the archive from
    [WARNING] on, that of the history from [INFO] on, that of the session
    always. *)
Definition files_for (self : attrs) (lv : level) : list (list string) :=
  let file := (level_name lv ++ ".log")%string in
  (if (levelno WARNING <=? levelno lv)%nat then [_log_archive_folder self ++ [file]] else [])
  ++ (if (levelno INFO <=? levelno lv)%nat then [_log_history_folder self ++ [file]] else [])
  ++ [_log_session_folder self ++ [file]].

(** What a message of a level prints. *)
Definition printed (self : attrs) (lv : level) (message : string) : list string :=
  if (_log_print_threshhold self <=? levelno lv)%nat
  then [("Budo" ++ _convert_level_to_classification (levelno lv) ++ ": " ++ message)%string]
  else [].

(** The loggers of a set-up that went through: one for each level, with a
    handler of that level for each of its files. *)
Definition installed (self : attrs) : list (string * logger) :=
  map (fun lv =>
         (level_name lv,
          {| logger_level := levelno lv;
             handlers := map (fun file => {| baseFilename := file;
                                             handler_level := levelno lv |})
                           (files_for self lv) |}))
    all_levels.

(** The state of the class after a set-up that went through. *)
Definition ready (self : attrs) (s : st) : Prop :=
  _setup_done s = true
  /\ loggers s = installed self
  /\ _loggers s = map (fun lv => (level_name lv, level_name lv)) all_levels.

(** A set-up that has begun and not ended. *)
Definition stuck (s : st) : Prop :=
  _setup_done s = false /\ _setup_in_progress s = true.

(** The state after a message of level [lv] was printed, if it is to be
    printed, in the state [s]. *)
Definition said (self : attrs) (lv : level) (message : string) (s : st) : st :=
  set_console (console s ++ printed self lv message) s.

(** The state after a message of level [lv] was printed and went to its
    files in the state [s]. *)
Definition routed (self : attrs) (asctime : nat -> string) (lv : level)
    (message : string) (s : st) : st :=
  let line := format asctime (records s) (level_name lv) (levelno lv) message in
  set_appended (appended s ++ map (fun file => (file, line)) (files_for self lv))
    (set_records (S (records s)) (said self lv message s)).

(** The state differs at most in the file tree, the loggers and the
    entries of [_loggers]. *)
Definition setup_kept (s s' : st) : Prop :=
  console s' = console s
  /\ _setup_in_progress s' = _setup_in_progress s
  /\ _setup_done s' = _setup_done s
  /\ appended s' = appended s
  /\ records s' = records s.

(** From a state in [I] the method ends in a state in [I], and what it
    raises, if anything, is an [OSError]. *)
Definition preserves {A : Type} (I : st -> Prop) (m : L A) : Prop :=
  forall s, I s ->
    match m s with
    | (Done _, s') => I s'
    | (Fail e, s') => I s' /\ exists e', e = OSError e'
    end.

(** From a state in [I] the method raises an [OSError], in a state in
    [I]. *)
Definition fails {A : Type} (I : st -> Prop) (m : L A) : Prop :=
  forall s, I s -> exists e s', m s = (Fail (OSError e), s') /\ I s'.

(** The folders the set-up may delete: the session folder and, with the
    expiry switched on, the history folder, each if it is inside the
    workspace. *)
Definition may_delete (self : attrs) : list (list string) :=
  (if is_relative_to (_log_session_folder self) (_workspace_path self)
   then [_log_session_folder self] else [])
  ++ (if _log_history_enable_expiration self
         && is_relative_to (_log_history_folder self) (_workspace_path self)
      then [_log_history_folder self] else []).

(** Every file of [root] that is in none of the [folders] is a file of
    [root'], with the same permissions and bytes. *)
Definition files_outside_kept (folders : list (list string)) (root root' : node) : Prop :=
  forall q r w x,
    (forall folder, In folder folders -> is_relative_to q folder = false) ->
    walk root q = Found (File r w x) ->
    walk root' q = Found (File r w x).

End BudoLogger.

(** * Properties *)

#[local] Arguments String.append !s1 s2 : simpl nomatch.

(** ** Strings *)

Example str_replace_all : str_replace "aXbXXc" "X" "--" = "a--b----c".
Proof. reflexivity. Qed.

Example str_replace_no_overlap : str_replace "aaa" "aa" "b" = "ba".
Proof. reflexivity. Qed.

Example str_replace_empty_old : str_replace "ab" "" "-" = "-a-b-".
Proof. reflexivity. Qed.

Example str_split_dots : str_split "."%char "www.test.com" = ["www"; "test"; "com"].
Proof. reflexivity. Qed.

Example str_strip_underscores : str_strip "_"%char "__a_b__" = "a_b".
Proof. reflexivity. Qed.

Example universal_newlines_crlf :
  universal_newlines (String "a"%char (String CR (String LF (String "b"%char (String CR "")))))
  = String "a"%char (String LF (String "b"%char (String LF ""))).
Proof. reflexivity. Qed.

Example urlparse_full :
  urlparse "https://example.com/path;p?query=123#frag"
  = {| ParseResult.scheme := "https"; ParseResult.netloc := "example.com";
       ParseResult.path := "/path"; ParseResult.params := "p";
       ParseResult.query := "query=123"; ParseResult.fragment := "frag" |}.
Proof. reflexivity. Qed.

Example urlparse_no_scheme :
  urlparse "foo/bar:baz"
  = {| ParseResult.scheme := ""; ParseResult.netloc := "";
       ParseResult.path := "foo/bar:baz"; ParseResult.params := "";
       ParseResult.query := ""; ParseResult.fragment := "" |}.
Proof. reflexivity. Qed.

Example get_path_for_cached_html_item :
  _get_path_for_cached_html example_config example_url
  = Abs ["w"; "data"; "webcache"; "test"; "item_1.txt"].
Proof. reflexivity. Qed.






Lemma length_one_inv {A : Type} (l : list A) (d : A) :
  length l = 1 -> l = [nth 0 l d] /\ l = [List.last l d].
Proof. destruct l as [|x [|y l]]; simpl; intros H; try discriminate; auto. Qed.

(** ** BudoTrimmer: the bounding step *)







(** ** BudoHtml: path derivation *)

Lemma replace_absent_char (ch : ascii) (new s : string) :
  str_all (fun c => negb (Ascii.eqb ch c)) s = true ->
  str_replace s (String ch EmptyString) new = s.
Proof.
  unfold str_replace.
  induction s as [|c s IH]; cbn [str_all replace_from String.prefix]; intros H;
    [reflexivity|].
  apply andb_true_iff in H as [Hc Hs].
  destruct (ascii_dec ch c) as [->|Hne].
  - rewrite Ascii.eqb_refl in Hc. discriminate.
  - f_equal. now apply IH.
Qed.

Lemma sanitize_no_slash (text : string) :
  str_all (fun c => negb (Ascii.eqb "/"%char c)) (sanitize text) = true.
Proof.
  induction text as [|c text IH]; cbn [sanitize str_all]; [reflexivity|].
  rewrite IH, andb_true_r.
  destruct (char_in c valid_chars) eqn:Hc; [|reflexivity].
  destruct (Ascii.eqb_spec "/"%char c) as [<-|]; [|reflexivity].
  vm_compute in Hc. discriminate.
Qed.

(** C8. The folder names of ["https://mail.admin.dtu.dk/x"] and
    ["https://www.test.com"] are ["mail_admin_dtu"] and ["test"]; the file
    name of ["https://example.com/path?query=123"] is not empty, has only
    characters of [[A-Za-z0-9._-]] and neither begins nor ends with an
    underscore. *)
Theorem C8_path_derivation :
  _generate_foldername "https://mail.admin.dtu.dk/x" = "mail_admin_dtu"
  /\ _generate_foldername "https://www.test.com" = "test"
  /\ let filename := _generate_filename "https://example.com/path?query=123" in
     filename <> ""
     /\ str_all filename_char filename = true
     /\ first_char filename <> Some "_"%char
     /\ last_char filename <> Some "_"%char.
Proof.
  split; [reflexivity|]. split; [reflexivity|].
  vm_compute. repeat split; discriminate.
Qed.

(** C10. When path and query of a URL sanitize and strip to the empty
    string, [_generate_filename] returns the sanitization of the whole URL,
    character by character and not stripped; so for
    ["https://example.com/"] the file name ends with an underscore and for
    ["//example.com/"] it also begins with one. *)
Theorem C10_filename_fallback :
  (forall url,
      str_strip "_"%char (sanitize (path_and_query url)) = "" ->
      _generate_filename url = sanitize url)
  /\ _generate_filename "https://example.com/" = "https___example.com_"
  /\ _generate_filename "//example.com/" = "__example.com_".
Proof.
  split; [|split; reflexivity].
  intros url H. unfold _generate_filename.
  rewrite (replace_absent_char "/"%char) by apply sanitize_no_slash.
  rewrite H. reflexivity.
Qed.

Lemma C10_filename_fallback_witness :
  _generate_filename "https://example.com/" = sanitize "https://example.com/".
Proof.
  apply (proj1 C10_filename_fallback "https://example.com/"). reflexivity.
Defined.

(** ** BudoTrimmer: lookup by URL *)








(** ** BudoTrimmer: registration *)

Lemma assoc_In {A : Type} (k : string) (v : A) (l : list (string * A)) :
  assoc k l = Some v -> In (k, v) l.
Proof.
  induction l as [|[k' v'] l IH]; simpl; [discriminate|].
  destruct (String.eqb_spec k k') as [->|]; intros H.
  - injection H as ->. now left.
  - right. now apply IH.
Qed.

Lemma assoc_None {A : Type} (k : string) (l : list (string * A)) :
  assoc k l = None <-> ~ In k (map fst l).
Proof.
  induction l as [|[k' v'] l IH]; simpl; [tauto|].
  destruct (String.eqb_spec k k') as [->|Hne].
  - split; [discriminate | intros H; exfalso; apply H; now left].
  - rewrite IH. split; [intros H [Heq|Hin]; [congruence | tauto] | tauto].
Qed.


Lemma assoc_set_same {A : Type} (k : string) (v : A) (l : list (string * A)) :
  assoc k (assoc_set k v l) = Some v.
Proof.
  induction l as [|[k' v'] l IH]; simpl.
  - now rewrite String.eqb_refl.
  - destruct (String.eqb_spec k k') as [->|Hne]; simpl.
    + now rewrite String.eqb_refl.
    + destruct (String.eqb_spec k k'); [congruence | exact IH].
Qed.









(** Replacements are applied in the order of the dictionary, which the
    comparison of two rulesets does not look at. *)
Example replacement_order_matters :
  let ab := {| target_url := "t"; start := ""; end_ := "";
               replacements := Some [("a", "b"); ("b", "c")]; validations := None |} in
  let ba := {| target_url := "t"; start := ""; end_ := "";
               replacements := Some [("b", "c"); ("a", "b")]; validations := None |} in
  _trimmers_are_equal ab ba = true
  /\ _replace_substrings "a" (replacements ab) = "c"
  /\ _replace_substrings "a" (replacements ba) = "b".
Proof. repeat split. Qed.


(** ** Reasoning about methods *)

Section Keeps.

Variable R : state -> state -> Prop.
Hypothesis R_refl : forall s, R s s.
Hypothesis R_trans : forall s1 s2 s3, R s1 s2 -> R s2 s3 -> R s1 s3.

Lemma keeps_ret {A : Type} (a : A) : keeps R (ret a).
Proof. intros s. apply R_refl. Qed.

Lemma keeps_raise {A : Type} (e : exn) : keeps R (@raise A e).
Proof. intros s. apply R_refl. Qed.

Lemma keeps_lift {A : Type} (r : result A) : keeps R (lift r).
Proof. intros s. apply R_refl. Qed.

Lemma keeps_get {A : Type} (proj : state -> A) : keeps R (get proj).
Proof. intros s. apply R_refl. Qed.

Lemma keeps_bind {A B : Type} (m : M A) (k : A -> M B) :
  keeps R m -> (forall a, keeps R (k a)) -> keeps R (bind m k).
Proof.
  intros Hm Hk s. unfold bind. specialize (Hm s).
  destruct (m s) as [[a|e] s']; simpl in *; [|exact Hm].
  eapply R_trans; [exact Hm | apply Hk].
Qed.

Lemma keeps_try_except {A : Type} (m : M A) (h : exn -> M A) :
  keeps R m -> (forall e, keeps R (h e)) -> keeps R (try_except m h).
Proof.
  intros Hm Hh s. unfold try_except. specialize (Hm s).
  destruct (m s) as [[a|e] s']; simpl in *; [exact Hm|].
  eapply R_trans; [exact Hm | apply Hh].
Qed.

End Keeps.

Lemma tree_and_log_refl s : tree_and_log s s.
Proof. repeat split. Qed.

Lemma tree_and_log_trans s1 s2 s3 :
  tree_and_log s1 s2 -> tree_and_log s2 s3 -> tree_and_log s1 s3.
Proof. unfold tree_and_log. intuition congruence. Qed.

Lemma memory_kept_refl s : memory_kept s s.
Proof. repeat split. Qed.

Lemma memory_kept_trans s1 s2 s3 :
  memory_kept s1 s2 -> memory_kept s2 s3 -> memory_kept s1 s3.
Proof. unfold memory_kept. intuition congruence. Qed.

Lemma tree_and_log_memory s s' : tree_and_log s s' -> memory_kept s s'.
Proof. unfold tree_and_log, memory_kept. tauto. Qed.

Lemma keeps_weaken {A : Type} (m : M A) : keeps tree_and_log m -> keeps memory_kept m.
Proof. intros H s. apply tree_and_log_memory, H. Qed.

Lemma keeps_set_fs (r : node) : keeps tree_and_log (modify (set_fs r)).
Proof. intros s. repeat split. Qed.

Lemma keeps_emit (lv : level) (message : string) : keeps tree_and_log (emit lv message).
Proof. intros s. repeat split. Qed.

Lemma keeps_set_loop (b : bool) : keeps memory_kept (modify (set_in_recursion_loop b)).
Proof. intros s. repeat split. Qed.

Create HintDb keeps.

#[local] Hint Resolve keeps_set_fs keeps_emit keeps_set_loop : keeps.

Ltac keeps_rel :=
  first [ exact tree_and_log_refl | exact tree_and_log_trans
        | exact memory_kept_refl | exact memory_kept_trans ].

(** Take a method apart along its binds, handlers and case distinctions;
    what is left are the calls of other methods. *)
Ltac keeps_step :=
  match goal with
  | |- keeps _ (bind _ _) => apply keeps_bind; [keeps_rel | | intros]
  | |- keeps _ (try_except _ _) => apply keeps_try_except; [keeps_rel | | intros]
  | |- keeps _ (ret _) => apply keeps_ret; keeps_rel
  | |- keeps _ (raise _) => apply keeps_raise; keeps_rel
  | |- keeps _ (lift _) => apply keeps_lift; keeps_rel
  | |- keeps _ (get _) => apply keeps_get; keeps_rel
  | |- keeps tree_and_log (warning _) => apply keeps_emit
  | |- keeps tree_and_log (error _) => apply keeps_emit
  | |- keeps memory_kept (warning _) => apply keeps_weaken, keeps_emit
  | |- keeps memory_kept (error _) => apply keeps_weaken, keeps_emit
  | |- keeps memory_kept (modify (set_fs _)) => apply keeps_weaken, keeps_set_fs
  | |- keeps _ (if ?b then _ else _) => destruct b
  | |- keeps _ (match ?x with _ => _ end) => destruct x
  | |- _ => solve [auto with keeps]
  end.

Ltac keeps_auto := repeat keeps_step.

(** ** BudoPersistence: what the methods leave alone *)

Section PersistenceFrame.

Variable cfg : BudoConfig.

Lemma keeps_resolve_path (path : Path) : keeps tree_and_log (_resolve_path cfg path).
Proof. unfold _resolve_path. keeps_auto. Qed.

Lemma keeps_add_subfolder (path : Path) (subfolder : string) :
  keeps tree_and_log (_add_subfolder_to_end_of_path cfg path subfolder).
Proof.
  unfold _add_subfolder_to_end_of_path.
  apply keeps_bind; [keeps_rel | apply keeps_resolve_path | intros p]. keeps_auto.
Qed.

Lemma keeps_copy_compressed (src dst : list string) :
  keeps tree_and_log (copy_compressed src dst).
Proof. unfold copy_compressed. keeps_auto. Qed.

Lemma keeps_copy_decompressed (src dst : list string) :
  keeps tree_and_log (copy_decompressed src dst).
Proof. unfold copy_decompressed. keeps_auto. Qed.

Lemma keeps_try_compress_file (path : Path) :
  keeps tree_and_log (try_compress_file cfg path).
Proof.
  unfold try_compress_file, _generate_compressed_subpath, _generate_uncompressed_subpath.
  apply keeps_bind; [keeps_rel | apply keeps_add_subfolder | intros c].
  apply keeps_bind; [keeps_rel | apply keeps_add_subfolder | intros u].
  apply keeps_try_except; [keeps_rel | | intros e; keeps_auto].
  apply keeps_bind; [keeps_rel | apply keeps_copy_compressed | intros _; keeps_auto].
Qed.

Lemma keeps_try_decompress_file (path : Path) :
  keeps tree_and_log (try_decompress_file cfg path).
Proof.
  unfold try_decompress_file, _generate_compressed_subpath, _generate_uncompressed_subpath.
  apply keeps_bind; [keeps_rel | apply keeps_add_subfolder | intros c].
  apply keeps_bind; [keeps_rel | apply keeps_add_subfolder | intros u].
  apply keeps_try_except; [keeps_rel | | intros e; keeps_auto].
  apply keeps_bind; [keeps_rel | apply keeps_copy_decompressed | intros _; keeps_auto].
Qed.

Lemma keeps_try_recursive_call_with (read : Path -> bool -> M string)
    (path : Path) (missing_ok : bool) :
  (forall p m, keeps memory_kept (read p m)) ->
  keeps memory_kept (_try_recursive_call_with read path missing_ok).
Proof. intros Hread. unfold _try_recursive_call_with. keeps_auto. Qed.

Lemma keeps_read_textfile_rec (depth : nat) (path : Path) (missing_ok : bool) :
  keeps memory_kept (read_textfile_rec cfg depth path missing_ok).
Proof.
  revert path missing_ok. induction depth as [|depth IH]; intros path missing_ok;
    cbn [read_textfile_rec]; [keeps_auto|].
  apply keeps_bind; [keeps_rel | apply keeps_weaken, keeps_resolve_path | intros p].
  apply keeps_try_except; [keeps_rel | keeps_auto | intros e].
  destruct e; try solve [keeps_auto].
  apply keeps_bind; [keeps_rel | | intros recovered].
  - destruct (feature_flag_try_read_compressed_backups cfg); [|keeps_auto].
    apply keeps_weaken, keeps_try_decompress_file.
  - destruct recovered; [now apply keeps_try_recursive_call_with | keeps_auto].
Qed.

Lemma keeps_read_textfile (path : Path) (missing_ok : bool) :
  keeps memory_kept (read_textfile cfg path missing_ok).
Proof. apply keeps_read_textfile_rec. Qed.

Lemma keeps_write_textfile (path : Path) (content : string) :
  keeps tree_and_log (write_textfile cfg path content).
Proof.
  unfold write_textfile.
  apply keeps_bind; [keeps_rel | apply keeps_resolve_path | intros p].
  apply keeps_try_except; [keeps_rel | | intros e; keeps_auto].
  apply keeps_bind; [keeps_rel | keeps_auto | intros root].
  apply keeps_bind; [keeps_rel | keeps_auto | intros root'].
  apply keeps_bind; [keeps_rel | keeps_auto | intros _].
  apply keeps_bind; [keeps_rel | keeps_auto | intros _].
  destruct (feature_flag_try_write_compressed_backups cfg); [|keeps_auto].
  apply keeps_bind; [keeps_rel | apply keeps_try_compress_file | intros _; keeps_auto].
Qed.

End PersistenceFrame.

(** ** BudoTrimmer: trimming returns and only logs *)

Lemma only_log_refl s : only_log s s.
Proof. repeat split. Qed.

Lemma only_log_trans s1 s2 s3 : only_log s1 s2 -> only_log s2 s3 -> only_log s1 s3.
Proof.
  intros [H1 H1'] [H2 H2']. split; [congruence | eapply tree_and_log_trans; eauto].
Qed.

Lemma quiet_ret {A : Type} (a : A) : quiet (ret a).
Proof. intros s. exists a, s. split; [reflexivity | apply only_log_refl]. Qed.

Lemma quiet_get {A : Type} (proj : state -> A) : quiet (get proj).
Proof. intros s. exists (proj s), s. split; [reflexivity | apply only_log_refl]. Qed.

Lemma quiet_emit (lv : level) (message : string) : quiet (emit lv message).
Proof. intros s. eexists tt, _. split; [reflexivity | repeat split]. Qed.

Lemma quiet_bind {A B : Type} (m : M A) (k : A -> M B) :
  quiet m -> (forall a, quiet (k a)) -> quiet (bind m k).
Proof.
  intros Hm Hk s. destruct (Hm s) as (a & s1 & Hms & H1).
  destruct (Hk a s1) as (b & s2 & Hks & H2).
  exists b, s2. unfold bind. rewrite Hms, Hks.
  split; [reflexivity | eapply only_log_trans; eauto].
Qed.

Ltac quiet_step :=
  match goal with
  | |- quiet (bind _ _) => apply quiet_bind; [|intros]
  | |- quiet (ret _) => apply quiet_ret
  | |- quiet (get _) => apply quiet_get
  | |- quiet (warning _) => apply quiet_emit
  | |- quiet (if ?b then _ else _) => destruct b
  end.

Lemma quiet_trim_start (text start : string) : quiet (_trim_start text start).
Proof. unfold _trim_start. repeat quiet_step. Qed.

Lemma quiet_trim_end (text end_ : string) : quiet (_trim_end text end_).
Proof. unfold _trim_end. repeat quiet_step. Qed.

Lemma quiet_validate_each (text : string) (validations : list string) :
  quiet (validate_each text validations).
Proof.
  induction validations as [|v vs IH]; cbn [validate_each]; repeat quiet_step.
  exact IH.
Qed.

Lemma quiet_trim_and_validate (self : BudoTrimmer) (text : string) :
  quiet (trim_and_validate self text).
Proof.
  unfold trim_and_validate, _trim_start_and_end, _validate_remaining_text.
  apply quiet_bind.
  - apply quiet_bind; [apply quiet_trim_start | intros t].
    apply quiet_bind; [apply quiet_trim_end | intros t'; apply quiet_ret].
  - intros t. apply quiet_bind; [|intros; apply quiet_ret].
    destruct (validations self); repeat quiet_step. apply quiet_validate_each.
Qed.

Lemma quiet_trim_html (url html : string) (trimmer : option BudoTrimmer) :
  quiet (trim_html url html trimmer).
Proof.
  unfold trim_html. destruct trimmer as [t|]; [apply quiet_trim_and_validate|].
  apply quiet_bind; [apply quiet_get | intros registry].
  destruct (matching_trimmers url registry) as [|t [|t' l]];
    try apply quiet_trim_and_validate; repeat quiet_step.
Qed.

(** ** BudoPersistence: resolving and reading *)

Lemma resolve_path_eq (cfg : BudoConfig) (path : Path) (s : state) :
  _resolve_path cfg path s =
  if exists_ (fs s) (parent (resolved cfg path)) then (Ok (Abs (resolved cfg path)), s)
  else match mkdir_p (fs s) (parent (resolved cfg path)) with
       | Ok root' => (Ok (Abs (resolved cfg path)), set_fs root' s)
       | Raise e => (Raise e, s)
       end.
Proof.
  unfold _resolve_path, resolved, bind, get, lift, modify, ret.
  destruct path as [p|p]; cbn [is_absolute parts];
    match goal with |- context [exists_ ?r ?d] => destruct (exists_ r d) end;
    cbn [negb]; try reflexivity;
    match goal with |- context [mkdir_p ?r ?d] => destruct (mkdir_p r d) end;
    reflexivity.
Qed.

Lemma walk_parent_exists (root : node) (p : list string) (n : node) :
  walk root p = Found n -> exists_ root (parent p) = true.
Proof.
  unfold exists_, parent. revert root.
  induction p as [|c p IH]; intros root H; [reflexivity|].
  destruct p as [|c' p]; [reflexivity|].
  cbn [removelast]. cbn [walk] in H |- *.
  destruct root as [? ? ?|es]; [discriminate|].
  destruct (assoc c es) as [m|]; [|discriminate].
  now apply IH.
Qed.

Lemma open_rb_exists (root : node) (p : list string) (d : blob) :
  open_rb root p = Ok d -> exists_ root (parent p) = true.
Proof.
  unfold open_rb. destruct (walk root p) as [n| |] eqn:Hw; try discriminate.
  intros _. eapply walk_parent_exists; eauto.
Qed.

Lemma read_textfile_hit (cfg : BudoConfig) (path : Path) (missing_ok : bool)
    (s : state) (raw : string) :
  open_rb (fs s) (resolved cfg path) = Ok (Text raw) ->
  read_textfile cfg path missing_ok s = (Ok (universal_newlines raw), s).
Proof.
  intros H. unfold read_textfile.
  change recursion_limit with (S (pred recursion_limit)).
  cbn [read_textfile_rec]. unfold bind at 1.
  rewrite resolve_path_eq, (open_rb_exists _ _ _ H).
  unfold try_except, bind, get, lift. cbn [parts]. rewrite H. reflexivity.
Qed.

(** ** BudoHtml: the two cache tiers *)

Section HtmlProperties.

Variable cfg : BudoConfig.

Lemma try_get_cached_html_eq (url : string) (path : option Path) (s : state) :
  try_get_cached_html cfg url path s =
  match _webcache s !! url with
  | Some cached => (Ok cached, s)
  | None =>
      match _search_url_in_local_webcache cfg url path s with
      | (Ok cached_html, s1) =>
          if String.eqb cached_html ""
          then (Ok "", s1)
          else (Ok cached_html, set_webcache (<[url := cached_html]> (_webcache s1)) s1)
      | (Raise e, s1) => (Raise e, s1)
      end
  end.
Proof.
  unfold try_get_cached_html, bind, get.
  destruct (_webcache s !! url); [reflexivity|].
  destruct (_search_url_in_local_webcache cfg url path s) as [[v|e] s1]; [|reflexivity].
  destruct (String.eqb v ""); reflexivity.
Qed.

Lemma keeps_search_url (url : string) (path : option Path) :
  keeps memory_kept (_search_url_in_local_webcache cfg url path).
Proof.
  unfold _search_url_in_local_webcache, try_read_textfile.
  destruct (feature_flag_read_webcache cfg); [|keeps_auto].
  apply keeps_bind; [keeps_rel | apply keeps_read_textfile | intros html; keeps_auto].
Qed.

Lemma try_get_cached_html_lookup (url : string) (path : option Path) (s s' : state)
    (v : string) :
  try_get_cached_html cfg url path s = (Ok v, s') ->
  v <> "" ->
  _webcache s' !! url = Some v.
Proof.
  rewrite try_get_cached_html_eq. intros H Hv.
  destruct (_webcache s !! url) as [c|] eqn:Hc.
  - injection H as -> ->. exact Hc.
  - destruct (_search_url_in_local_webcache cfg url path s) as [[w|e] s1]; [|discriminate].
    destruct (String.eqb_spec w "") as [->|Hw].
    + injection H as <- _. congruence.
    + injection H as -> <-. cbn. apply lookup_insert_eq.
Qed.

Lemma try_get_cached_html_frame (url : string) (path : option Path) (s s' : state)
    (r : result string) :
  try_get_cached_html cfg url path s = (r, s') ->
  _trimmer_registry s' = _trimmer_registry s /\ requests s' = requests s.
Proof.
  rewrite try_get_cached_html_eq. intros H.
  destruct (_webcache s !! url) as [c|].
  - injection H as _ <-. auto.
  - pose proof (keeps_search_url url path s) as (_ & Hreg & Hreq).
    destruct (_search_url_in_local_webcache cfg url path s) as [[w|e] s1]; cbn [snd] in *.
    + destruct (String.eqb w ""); injection H as _ <-; auto.
    + injection H as _ <-; auto.
Qed.

Lemma fetch_url_memory_hit (net : string -> nat -> response) (url : string)
    (path : option Path) (timeout : nat) (s : state) (c : string) :
  _webcache s !! url = Some c ->
  c <> "" ->
  fetch_url cfg net url path timeout s = (Ok c, s).
Proof.
  intros Hc Hne. unfold fetch_url, bind. rewrite try_get_cached_html_eq, Hc.
  destruct (String.eqb_spec c ""); [contradiction | reflexivity].
Qed.

End HtmlProperties.

(** C9. When [url] is not in the in-memory map and the search on disk
    returns a text that is not empty, [try_get_cached_html] puts that text
    into the map under [url] and returns it; and whenever
    [try_get_cached_html] returns a text that is not empty, the map holds
    that text under [url] afterwards. *)
Theorem C9_disk_hit_promoted (cfg : BudoConfig) (url : string) (path : option Path)
    (s : state) :
  (forall v s1,
      _webcache s !! url = None ->
      _search_url_in_local_webcache cfg url path s = (Ok v, s1) ->
      v <> "" ->
      try_get_cached_html cfg url path s
      = (Ok v, set_webcache (<[url := v]> (_webcache s1)) s1))
  /\ (forall v s',
      try_get_cached_html cfg url path s = (Ok v, s') ->
      v <> "" ->
      _webcache s' !! url = Some v).
Proof.
  split.
  - intros v s1 Hnone Hdisk Hv. rewrite try_get_cached_html_eq, Hnone, Hdisk.
    destruct (String.eqb_spec v ""); [contradiction | reflexivity].
  - intros v s'. apply try_get_cached_html_lookup.
Qed.

Lemma C9_disk_hit_promoted_witness :
  let s := initial_state example_disk in
  try_get_cached_html example_config example_url None s
  = (Ok "<A>body</A>", set_webcache (<[example_url := "<A>body</A>"]> (_webcache s)) s)
  /\ _webcache (set_webcache (<[example_url := "<A>body</A>"]> (_webcache s)) s)
       !! example_url = Some "<A>body</A>".
Proof.
  intros s.
  destruct (C9_disk_hit_promoted example_config example_url None s) as [H1 H2].
  assert (Hhit : try_get_cached_html example_config example_url None s
                 = (Ok "<A>body</A>",
                    set_webcache (<[example_url := "<A>body</A>"]> (_webcache s)) s)).
  { apply (H1 "<A>body</A>" s).
    - reflexivity.
    - vm_compute. reflexivity.
    - discriminate. }
  split; [exact Hhit|].
  apply (H2 _ _ Hhit). discriminate.
Defined.

(** C5, as the code has it.  A URL whose entry in the in-memory map is not
    empty is fetched by a pure read: the entry is returned and the state is
    left as it was, so nothing is requested and neither the map nor the file
    tree changes.  A URL that is not in the map but whose cache file holds a
    text that reads as not empty is fetched without a request and without a
    change to the file tree; the text is returned and put into the map. *)
Theorem C5_fetch_cached (cfg : BudoConfig) (net : string -> nat -> response)
    (url : string) (path : option Path) (timeout : nat) (s : state) :
  (forall c,
      _webcache s !! url = Some c ->
      c <> "" ->
      fetch_url cfg net url path timeout s = (Ok c, s))
  /\ (forall raw,
      _webcache s !! url = None ->
      feature_flag_read_webcache cfg = true ->
      open_rb (fs s) (cache_file cfg url path) = Ok (Text raw) ->
      universal_newlines raw <> "" ->
      fetch_url cfg net url path timeout s
      = (Ok (universal_newlines raw),
         set_webcache (<[url := universal_newlines raw]> (_webcache s)) s)).
Proof.
  split.
  - intros c. apply fetch_url_memory_hit.
  - intros raw Hnone Hflag Hfile Hne.
    unfold fetch_url, bind. rewrite try_get_cached_html_eq, Hnone.
    unfold _search_url_in_local_webcache, try_read_textfile. rewrite Hflag.
    unfold bind at 1. unfold cache_file in Hfile.
    rewrite (read_textfile_hit _ _ _ _ _ Hfile). cbn [ret].
    assert (E : String.eqb (universal_newlines raw) "" = false)
      by now apply String.eqb_neq.
    rewrite E. cbv beta iota. rewrite E. reflexivity.
Qed.

Lemma C5_fetch_cached_witness :
  let net := fun (_ : string) (_ : nat) => Body "fresh" in
  let s := initial_state example_disk in
  let s' := set_webcache (<[example_url := "<A>body</A>"]> (_webcache s)) s in
  fetch_url example_config net example_url None 10 s = (Ok "<A>body</A>", s')
  /\ fetch_url example_config net example_url None 10 s' = (Ok "<A>body</A>", s').
Proof.
  intros net s s'. split.
  - apply (proj2 (C5_fetch_cached example_config net example_url None 10 s) "<A>body</A>").
    + reflexivity.
    + reflexivity.
    + vm_compute. reflexivity.
    + discriminate.
  - apply (proj1 (C5_fetch_cached example_config net example_url None 10 s')).
    + apply lookup_insert_eq.
    + discriminate.
Defined.

(** C5, as stated, fails for a URL whose fetched content was empty: the
    empty text is cached, yet the next [fetch_url] sends a request again and
    writes the cache file again. *)
Lemma C5_empty_entry_refetched :
  let net := fun (_ : string) (_ : nat) => Body "" in
  let first := fetch_url example_config net example_url None 10 (initial_state (Dir [])) in
  let second := fetch_url example_config net example_url None 10 (snd first) in
  fst first = Ok ""
  /\ _webcache (snd first) !! example_url = Some ""
  /\ requests (snd first) = [example_url]
  /\ requests (snd second) = [example_url; example_url]
  /\ snd second <> snd first.
Proof.
  vm_compute. repeat split. discriminate.
Qed.

(** ** BudoHtml: fetching twice *)

Section FetchTwice.

Variable cfg : BudoConfig.

Lemma send_request_frame (net : string -> nat -> response) (url : string)
    (timeout : nat) (s : state) :
  exists html s',
    _send_request net url timeout s = (Ok html, s')
    /\ requests s' = requests s ++ [url]
    /\ _trimmer_registry s' = _trimmer_registry s.
Proof.
  unfold _send_request, bind, modify.
  destruct (net url timeout) as [text|]; eexists _, _; split; try reflexivity;
    split; reflexivity.
Qed.

Lemma cache_html_for_later_ok (url html : string) (path : option Path) (s s' : state) :
  cache_html_for_later cfg url html path s = (Ok tt, s') ->
  exists c sb,
    trim_html url html None s = (Ok c, sb)
    /\ _webcache s' !! url = Some c
    /\ requests s' = requests s.
Proof.
  unfold cache_html_for_later. unfold bind at 1.
  destruct (quiet_trim_html url html None s) as (c & sb & Htrim & _ & Hkept).
  rewrite Htrim. intros H. exists c, sb. split; [reflexivity|].
  destruct Hkept as (_ & _ & _ & Hreq).
  unfold bind, modify in H.
  set (s2 := set_webcache (<[url := c]> (_webcache sb)) sb) in H.
  assert (Hs2 : _webcache s2 !! url = Some c /\ requests s2 = requests s).
  { split; [apply lookup_insert_eq | exact Hreq]. }
  destruct (feature_flag_write_webcache cfg).
  - unfold _write_html_to_disk in H.
    match type of H with
    | write_textfile cfg ?p ?h s2 = _ =>
        pose proof (keeps_write_textfile cfg p h s2) as (Hw & _ & _ & Hr)
    end.
    rewrite H in Hw, Hr. cbn [snd] in Hw, Hr. destruct Hs2. split; congruence.
  - injection H as <-. exact Hs2.
Qed.

(** C1, as the code has it.  When [fetch_url] returns, [url] has an entry
    in the in-memory map.  If that entry is not empty, the next [fetch_url]
    of [url] returns it, sends no request and changes nothing, whatever the
    network would answer.  The entry is the text the first call returned
    when that call was answered from the cache; when the first call sent a
    request, the entry is what [trim_html] makes of the text it returned. *)
Theorem C1_fetch_url_twice (net net' : string -> nat -> response) (url : string)
    (path : option Path) (timeout timeout' : nat) (s s1 : state) (t : string) :
  fetch_url cfg net url path timeout s = (Ok t, s1) ->
  exists c,
    _webcache s1 !! url = Some c
    /\ (c <> "" -> fetch_url cfg net' url path timeout' s1 = (Ok c, s1))
    /\ ((c = t /\ requests s1 = requests s)
        \/ (requests s1 = requests s ++ [url]
            /\ exists sa sb,
                 _trimmer_registry sa = _trimmer_registry s
                 /\ trim_html url t None sa = (Ok c, sb))).
Proof.
  intros H. unfold fetch_url in H. unfold bind at 1 in H.
  destruct (try_get_cached_html cfg url path s) as [[c0|e] s'] eqn:Hget; [|discriminate].
  destruct (try_get_cached_html_frame _ _ _ _ _ _ Hget) as [Hreg Hreq].
  destruct (String.eqb_spec c0 "") as [->|Hne]; cbn [negb] in H.
  - unfold bind in H.
    destruct (send_request_frame net url timeout s') as (html & s2 & Hsend & Hreq2 & Hreg2).
    rewrite Hsend in H.
    destruct (cache_html_for_later cfg url html path s2) as [[[]|e] s3] eqn:Hcache;
      [|discriminate].
    injection H as <- <-.
    destruct (cache_html_for_later_ok _ _ _ _ _ Hcache) as (c & sb & Htrim & Hc & Hreq3).
    exists c. split; [exact Hc|]. split.
    + now apply fetch_url_memory_hit.
    + right. split; [congruence|]. exists s2, sb. split; [congruence | exact Htrim].
  - injection H as <- <-. exists c0.
    assert (Hc : _webcache s' !! url = Some c0)
      by (eapply try_get_cached_html_lookup; eauto).
    split; [exact Hc|]. split.
    + now apply fetch_url_memory_hit.
    + left. auto.
Qed.

End FetchTwice.

Lemma C1_fetch_url_twice_witness :
  let net := fun (_ : string) (_ : nat) => Body "noise<A>body</A>trailer" in
  let offline := fun (_ : string) (_ : nat) => URLError in
  let s := set_trimmer_registry [("test.com/item=", item_trimmer)] (initial_state (Dir [])) in
  let s1 := snd (fetch_url example_config net example_url None 10 s) in
  _webcache s1 !! example_url = Some "<A>body</A>"
  /\ fetch_url example_config offline example_url None 10 s1 = (Ok "<A>body</A>", s1)
  /\ requests s1 = requests s ++ [example_url].
Proof.
  intros net offline s s1.
  destruct (C1_fetch_url_twice example_config net offline example_url None 10 10 s s1
              "noise<A>body</A>trailer") as (c & Hc & Hsecond & Horigin).
  { vm_compute. reflexivity. }
  assert (Heq : c = "<A>body</A>").
  { assert (Hl : _webcache s1 !! example_url = Some "<A>body</A>")
      by (vm_compute; reflexivity).
    congruence. }
  subst c. split; [exact Hc|]. split.
  - apply Hsecond. discriminate.
  - destruct Horigin as [[Habs _]|[Hreq _]]; [discriminate Habs | exact Hreq].
Defined.

(** C1, as stated, fails in two ways.  With a ruleset registered for the
    page, the first call returns the text as fetched and the second the
    trimmed text; and when the network has no text to give, the second call
    sends a request again. *)
Lemma C1_second_fetch_differs :
  let net := fun (_ : string) (_ : nat) => Body "noise<A>body</A>trailer" in
  let offline := fun (_ : string) (_ : nat) => URLError in
  let s := set_trimmer_registry [("test.com/item=", item_trimmer)] (initial_state (Dir [])) in
  let first := fetch_url example_config net example_url None 10 s in
  let second := fetch_url example_config net example_url None 10 (snd first) in
  let first' := fetch_url example_config offline example_url None 10 s in
  let second' := fetch_url example_config offline example_url None 10 (snd first') in
  (fst first = Ok "noise<A>body</A>trailer"
   /\ fst second = Ok "<A>body</A>"
   /\ fst second <> fst first)
  /\ (requests (snd first') = [example_url]
      /\ requests (snd second') = [example_url; example_url]
      /\ requests (snd second') <> requests (snd first')).
Proof.
  vm_compute. repeat split; discriminate.
Qed.

(** ** BudoPersistence: reading a missing file *)

Lemma read_textfile_rec_eq (cfg : BudoConfig) (depth : nat) (path : Path)
    (missing_ok : bool) (s : state) :
  read_textfile_rec cfg (S depth) path missing_ok s =
  match _resolve_path cfg path s with
  | (Raise e, s1) => (Raise e, s1)
  | (Ok p, s1) =>
      match open_rb (fs s1) (parts p) with
      | Ok d =>
          match decode d with
          | Ok text => (Ok text, s1)
          | Raise e => (Raise e, s1)
          end
      | Raise FileNotFoundError =>
          match (if feature_flag_try_read_compressed_backups cfg
                 then try_decompress_file cfg p else ret false) s1 with
          | (Ok true, s2) =>
              _try_recursive_call_with (read_textfile_rec cfg depth) p missing_ok s2
          | (Ok false, s2) =>
              if missing_ok then (Ok "", s2)
              else (Raise FileNotFoundError,
                    logged ERROR ("File not found: " ++ path_str (parts p)) s2)
          | (Raise e, s2) => (Raise e, s2)
          end
      | Raise PermissionError =>
          (Raise PermissionError,
           logged ERROR ("Permission denied: " ++ path_str (parts p)) s1)
      | Raise e =>
          if is_IOError e then
            (Raise e,
             logged ERROR ("IO error occurred while reading " ++ path_str (parts p)
                           ++ ": " ++ exn_name e) s1)
          else (Raise e, s1)
      end
  end.
Proof.
  cbn [read_textfile_rec]. unfold bind at 1.
  destruct (_resolve_path cfg path s) as [[p|e] s1]; [|reflexivity].
  unfold try_except, bind at 1, get, lift. unfold bind at 1.
  destruct (open_rb (fs s1) (parts p)) as [d|e].
  - destruct d; reflexivity.
  - destruct e; try reflexivity.
    unfold bind at 1.
    destruct ((if feature_flag_try_read_compressed_backups cfg
               then try_decompress_file cfg p else ret false) s1) as [[[|]|e] s2];
      try reflexivity.
    destruct missing_ok; reflexivity.
Qed.

Lemma read_textfile_on_miss (cfg : BudoConfig) (path p : Path)
    (missing_ok : bool) (s s1 : state) :
  _resolve_path cfg path s = (Ok p, s1) ->
  (forall s2,
      open_rb (fs s1) (parts p) = Raise FileNotFoundError ->
      (if feature_flag_try_read_compressed_backups cfg
       then try_decompress_file cfg p else ret false) s1 = (Ok false, s2) ->
      read_textfile cfg path missing_ok s =
      if missing_ok then (Ok "", s2)
      else (Raise FileNotFoundError,
            logged ERROR ("File not found: " ++ path_str (parts p)) s2))
  /\ (forall e,
      open_rb (fs s1) (parts p) = Raise e ->
      e <> FileNotFoundError ->
      is_IOError e = true ->
      exists message,
        read_textfile cfg path missing_ok s = (Raise e, logged ERROR message s1)).
Proof.
  intros Hres. unfold read_textfile.
  change recursion_limit with (S (pred recursion_limit)).
  rewrite read_textfile_rec_eq, Hres. split.
  - intros s2 Hopen Hdec. rewrite Hopen, Hdec. reflexivity.
  - intros e Hopen Hne Hio. rewrite Hopen.
    destruct e; try contradiction; try discriminate; eexists; reflexivity.
Qed.




(** ** BudoPersistence: the compressed backup *)

Lemma walk_app_absent (root : node) (p q : list string) :
  walk root p = NoEnt -> walk root (p ++ q) = NoEnt.
Proof.
  revert root. induction p as [|c p IH]; intros root; cbn [walk app]; [discriminate|].
  destruct root as [? ? ?|es]; [discriminate|].
  destruct (assoc c es) as [m|]; [apply IH | reflexivity].
Qed.

Lemma mkdir_p_exists (root root' : node) (d : list string) :
  mkdir_p root d = Ok root' -> exists_ root' d = true.
Proof.
  unfold exists_. revert root root'.
  induction d as [|c d IH]; intros root root'; cbn [mkdir_p walk]; [reflexivity|].
  destruct root as [? ? ?|es]; [discriminate|].
  destruct (mkdir_p match assoc c es with Some m => m | None => Dir [] end d)
    as [m'|e] eqn:Hm; [|discriminate].
  intros [= <-]. rewrite assoc_set_same. eapply IH; eauto.
Qed.

Lemma resolve_path_parent (cfg : BudoConfig) (path p : Path) (s s1 : state) :
  _resolve_path cfg path s = (Ok p, s1) ->
  p = Abs (resolved cfg path) /\ exists_ (fs s1) (parent (resolved cfg path)) = true.
Proof.
  rewrite resolve_path_eq.
  destruct (exists_ (fs s) (parent (resolved cfg path))) eqn:Hex.
  - intros [= <- <-]. auto.
  - destruct (mkdir_p (fs s) (parent (resolved cfg path))) as [root'|e] eqn:Hm;
      [|discriminate].
    intros [= <- <-]. split; [reflexivity|]. eapply mkdir_p_exists; eauto.
Qed.

Lemma open_rb_missing (root : node) (p : list string) :
  open_rb root p = Raise FileNotFoundError <-> walk root p = NoEnt.
Proof.
  unfold open_rb. destruct (walk root p) as [[r w d|es]| |]; try destruct r;
    split; congruence.
Qed.

(** Once the file at [p] is missing, [try_decompress_file] looks for the
    compressed copy below [p] itself, finds nothing and gives up. *)
Lemma try_decompress_file_after_miss (cfg : BudoConfig) (p : list string) (s : state) :
  open_rb (fs s) p = Raise FileNotFoundError ->
  exists_ (fs s) (parent p) = true ->
  try_decompress_file cfg (Abs p) s
  = (Ok false,
     logged WARNING ("Compressed file not found for decompression: "
                     ++ path_str (p ++ [compressed_folder_name cfg])) s).
Proof.
  intros Hopen Hex. apply open_rb_missing in Hopen.
  assert (Hsub : forall sub,
             _add_subfolder_to_end_of_path cfg (Abs p) sub s = (Ok (Abs (p ++ [sub])), s)).
  { intros sub. unfold _add_subfolder_to_end_of_path. unfold bind at 1.
    rewrite resolve_path_eq. cbn [resolved is_absolute parts]. rewrite Hex.
    unfold bind, get, is_file. cbn [parts]. rewrite Hopen. reflexivity. }
  unfold try_decompress_file, _generate_compressed_subpath, _generate_uncompressed_subpath.
  unfold bind at 1. rewrite Hsub. unfold bind at 1. rewrite Hsub.
  unfold try_except, bind at 1, copy_decompressed, bind at 1, get.
  unfold bind at 1, lift. cbn [parts].
  assert (Hc : open_rb (fs s) (p ++ [compressed_folder_name cfg]) = Raise FileNotFoundError).
  { apply open_rb_missing. now apply walk_app_absent. }
  rewrite Hc. reflexivity.
Qed.

(** Whenever [read_textfile] misses the file it never gets it back: it
    returns the empty string or raises [FileNotFoundError], whatever the
    file tree holds elsewhere. *)
Lemma read_textfile_miss_is_final (cfg : BudoConfig) (path p : Path)
    (missing_ok : bool) (s s1 : state) :
  _resolve_path cfg path s = (Ok p, s1) ->
  open_rb (fs s1) (parts p) = Raise FileNotFoundError ->
  exists s2,
    fs s2 = fs s1
    /\ read_textfile cfg path missing_ok s =
       if missing_ok then (Ok "", s2)
       else (Raise FileNotFoundError,
             logged ERROR ("File not found: " ++ path_str (parts p)) s2).
Proof.
  intros Hres Hopen.
  destruct (resolve_path_parent _ _ _ _ _ Hres) as [-> Hex]. cbn [parts] in Hopen.
  destruct (feature_flag_try_read_compressed_backups cfg) eqn:Hflag.
  - eexists. split;
      [|apply (proj1 (read_textfile_on_miss cfg path _ missing_ok s s1 Hres));
        [exact Hopen | rewrite Hflag; now apply try_decompress_file_after_miss]].
    reflexivity.
  - exists s1. split; [reflexivity|].
    apply (proj1 (read_textfile_on_miss cfg path _ missing_ok s s1 Hres));
      [exact Hopen | rewrite Hflag; reflexivity].
Qed.

(** The retry is never reached, so one level of [read_textfile] is all a
    call ever uses and the interpreter's bound is never met. *)
Lemma read_textfile_rec_depth (cfg : BudoConfig) (depth : nat) (path : Path)
    (missing_ok : bool) (s : state) :
  read_textfile_rec cfg (S depth) path missing_ok s
  = read_textfile_rec cfg 1 path missing_ok s.
Proof.
  rewrite !read_textfile_rec_eq.
  destruct (_resolve_path cfg path s) as [[p|e] s1] eqn:Hres; [|reflexivity].
  destruct (resolve_path_parent _ _ _ _ _ Hres) as [-> Hex].
  destruct (open_rb (fs s1) (parts (Abs (resolved cfg path)))) as [d|e] eqn:Hopen;
    [reflexivity|].
  destruct e; try reflexivity.
  destruct (feature_flag_try_read_compressed_backups cfg); [|reflexivity].
  cbn [parts] in Hopen. rewrite (try_decompress_file_after_miss _ _ _ Hopen Hex).
  reflexivity.
Qed.

(** The guard of [_try_recursive_call]: while the flag is set, the method
    calls nothing, returns the empty string and clears the flag. *)
Lemma try_recursive_call_guarded (read : Path -> bool -> M string) (path : Path)
    (missing_ok : bool) (s : state) :
  _in_recursion_loop s = true ->
  _try_recursive_call_with read path missing_ok s
  = (Ok "", set_in_recursion_loop false s).
Proof.
  intros H. unfold _try_recursive_call_with, bind, get. rewrite H. reflexivity.
Qed.

(** C2, on the code.  ["hello"] is written to [data/notes.txt], which
    leaves its compressed copy in [compressed_backups]; then the primary
    file is deleted.  Reading the same path does not recover ["hello"]: with
    [missing_ok] false it raises [FileNotFoundError], with [missing_ok] true
    it returns the empty string, and the file tree stays as it was.  On an
    empty file tree the write leaves no compressed copy at all. *)
Theorem C2_fallback_does_not_recover :
  let path := Rel ["data"; "notes.txt"] in
  let written := snd (write_textfile example_config path "hello" (initial_state backup_disk)) in
  let deleted := set_fs (remove (fs written) ["w"; "data"; "notes.txt"]) written in
  open_rb (fs written) ["w"; "data"; "notes.txt"] = Ok (Text "hello")
  /\ open_rb (fs deleted) ["w"; "data"; "compressed_backups"; "notes.txt"]
     = Ok (Gzip (Text "hello"))
  /\ open_rb (fs deleted) ["w"; "data"; "notes.txt"] = Raise FileNotFoundError
  /\ fst (read_textfile example_config path false deleted) = Raise FileNotFoundError
  /\ fst (read_textfile example_config path true deleted) = Ok ""
  /\ fs (snd (read_textfile example_config path true deleted)) = fs deleted
  /\ exists_ (fs (snd (write_textfile example_config path "hello" (initial_state (Dir [])))))
       ["w"; "data"; "compressed_backups"; "notes.txt"] = false.
Proof.
  vm_compute. repeat split.
Qed.

(** * Further properties *)

(** ** The file tree: what a write leaves alone *)

Lemma assoc_set_other {A : Type} (k k' : string) (v : A) (l : list (string * A)) :
  k <> k' -> assoc k' (assoc_set k v l) = assoc k' l.
Proof.
  intros Hne. induction l as [|[k0 v0] l IH]; simpl.
  - destruct (String.eqb_spec k' k); [congruence | reflexivity].
  - destruct (String.eqb_spec k k0) as [->|Hk]; simpl.
    + destruct (String.eqb_spec k' k0); [congruence | reflexivity].
    + destruct (String.eqb_spec k' k0); [reflexivity | exact IH].
Qed.

Lemma walk_put_same (root root' : node) (p : list string) (new : node) :
  put root p new = Some root' -> walk root' p = Found new.
Proof.
  revert root root'. induction p as [|c p IH]; intros root root'; cbn [put].
  - intros [= <-]. reflexivity.
  - destruct root as [? ? ?|es]; [discriminate|].
    destruct p as [|c' p].
    + intros [= <-]. cbn [walk]. rewrite assoc_set_same. reflexivity.
    + destruct (assoc c es) as [m|]; [|discriminate].
      destruct (put m (c' :: p) new) as [m'|] eqn:Hm; [|discriminate].
      intros [= <-]. cbn [walk]. rewrite assoc_set_same. now apply (IH m).
Qed.

(** Putting a node where there was no directory leaves every other file
    as it was. *)
Lemma put_keeps_file (root root' : node) (q p : list string) (new : node)
    (r w : bool) (x : blob) :
  put root q new = Some root' ->
  (forall es, walk root q <> Found (Dir es)) ->
  p <> q ->
  walk root p = Found (File r w x) ->
  walk root' p = Found (File r w x).
Proof.
  revert root root' p. induction q as [|c q IH]; intros root root' p; cbn [put].
  - intros _ Hq Hne Hp. destruct root as [? ? ?|es]; [|now destruct (Hq es)].
    exfalso. destruct p; [congruence | discriminate].
  - destruct root as [? ? ?|es]; [discriminate|].
    intros Hput Hq Hne Hp.
    destruct p as [|c2 p]; [discriminate|].
    cbn [walk] in Hp.
    destruct (String.eqb_spec c c2) as [<-|Hc].
    + destruct (assoc c es) as [m|] eqn:Hm; [|discriminate].
      destruct q as [|c' q].
      * exfalso. destruct p as [|c3 p]; [congruence|].
        destruct m as [? ? ?|es']; [discriminate|].
        apply (Hq es'). cbn [walk]. now rewrite Hm.
      * destruct (put m (c' :: q) new) as [m'|] eqn:Hm'; [|discriminate].
        injection Hput as <-. cbn [walk]. rewrite assoc_set_same.
        apply (IH m); auto.
        -- intros es'. specialize (Hq es'). cbn [walk] in Hq. now rewrite Hm in Hq.
        -- congruence.
    + assert (Hroot : exists es', root' = Dir es' /\ assoc c2 es' = assoc c2 es).
      { destruct q as [|c' q].
        - injection Hput as <-. eexists. split; [reflexivity|]. now apply assoc_set_other.
        - destruct (assoc c es) as [m|]; [|discriminate].
          destruct (put m (c' :: q) new) as [m'|]; [|discriminate].
          injection Hput as <-. eexists. split; [reflexivity|]. now apply assoc_set_other. }
      destruct Hroot as (es' & -> & Hes). cbn [walk]. now rewrite Hes.
Qed.

(** What [open_wb] does to the file it opens and to the others. *)
Lemma open_wb_spec (root root' : node) (q : list string) (d : blob) :
  open_wb root q d = Ok root' ->
  (exists r w,
      walk root' q = Found (File r w d)
      /\ ((exists old, walk root q = Found (File r w old) /\ w = true)
          \/ (walk root q = NoEnt /\ r = true /\ w = true)))
  /\ (forall p r w x,
        p <> q ->
        walk root p = Found (File r w x) ->
        walk root' p = Found (File r w x)).
Proof.
  unfold open_wb. intros H.
  assert (Hnodir : forall n, walk root q = n -> (forall es, n <> Found (Dir es)) ->
                            forall es, walk root q <> Found (Dir es)) by (intros; subst; auto).
  destruct (walk root q) as [[r w old|es]| |] eqn:Hw; try discriminate.
  - destruct w; [|discriminate].
    destruct (put root q (File r true d)) as [root1|] eqn:Hput; [|discriminate].
    injection H as <-. split.
    + exists r, true. split; [eapply walk_put_same; eauto|]. left. eauto.
    + intros p r' w' x Hne Hp. eapply put_keeps_file; eauto.
      intros es. rewrite Hw. discriminate.
  - destruct (walk root (parent q)) as [[? ? ?|es]| |]; try discriminate.
    destruct (put root q (File true true d)) as [root1|] eqn:Hput; [|discriminate].
    injection H as <-. split.
    + exists true, true. split; [eapply walk_put_same; eauto|]. right. auto.
    + intros p r' w' x Hne Hp. eapply put_keeps_file; eauto.
      intros es'. rewrite Hw. discriminate.
Qed.

(** [mkdir_p] adds empty directories only: the files are the same before
    and after. *)
Lemma mkdir_p_files (root root' : node) (d p : list string) (r w : bool) (x : blob) :
  mkdir_p root d = Ok root' ->
  walk root' p = Found (File r w x) <-> walk root p = Found (File r w x).
Proof.
  revert root root' p. induction d as [|c d IH]; intros root root' p; cbn [mkdir_p].
  - destruct root; intros [= <-]. reflexivity.
  - destruct root as [? ? ?|es]; [discriminate|].
    destruct (mkdir_p match assoc c es with Some m => m | None => Dir [] end d)
      as [m'|e] eqn:Hm; [|discriminate].
    intros [= <-]. destruct p as [|c2 p]; [split; discriminate|].
    cbn [walk]. destruct (String.eqb_spec c c2) as [<-|Hc].
    + rewrite assoc_set_same. rewrite (IH _ _ p Hm).
      destruct (assoc c es) as [m|]; [reflexivity|].
      destruct p; split; discriminate.
    + rewrite (assoc_set_other _ _ _ _ Hc). reflexivity.
Qed.

Lemma files_kept_refl (but : list (list string)) (root : node) : files_kept but root root.
Proof. intros p r w x _ H. exact H. Qed.

Lemma files_kept_trans (but : list (list string)) (r1 r2 r3 : node) :
  files_kept but r1 r2 -> files_kept but r2 r3 -> files_kept but r1 r3.
Proof. intros H1 H2 p r w x Hp H. apply H2; auto. Qed.

Lemma files_kept_weaken (but but' : list (list string)) (root root' : node) :
  incl but but' -> files_kept but root root' -> files_kept but' root root'.
Proof. intros Hi H p r w x Hp. apply H. intros Hin. apply Hp, Hi, Hin. Qed.

Lemma open_wb_files_kept (root root' : node) (q : list string) (d : blob) :
  open_wb root q d = Ok root' -> files_kept [q] root root'.
Proof.
  intros H p r w x Hp. apply (proj2 (open_wb_spec _ _ _ _ H)).
  intros ->. apply Hp. now left.
Qed.

Lemma mkdir_p_files_kept (root root' : node) (d : list string) :
  mkdir_p root d = Ok root' -> files_kept [] root root'.
Proof. intros H p r w x _ Hp. now apply (mkdir_p_files _ _ _ _ _ _ _ H). Qed.

(** ** BudoPersistence: the steps of the methods *)

Lemma open_rb_raises (root : node) (p : list string) (e : exn) :
  open_rb root p = Raise e -> is_IOError e = true.
Proof.
  unfold open_rb. destruct (walk root p) as [[r w d|es]| |]; try destruct r;
    intros [= <-]; reflexivity.
Qed.

Lemma open_wb_raises (root : node) (p : list string) (d : blob) (e : exn) :
  open_wb root p d = Raise e -> is_IOError e = true.
Proof.
  unfold open_wb. destruct (walk root p) as [[r w old|es]| |].
  - destruct w; [|intros [= <-]; reflexivity].
    destruct (put root p (File r true d)); intros [= <-]; reflexivity.
  - intros [= <-]; reflexivity.
  - destruct (walk root (parent p)) as [[? ? ?|es]| |]; try (intros [= <-]; reflexivity).
    destruct (put root p (File true true d)); intros [= <-]; reflexivity.
  - intros [= <-]; reflexivity.
Qed.

Lemma gunzip_raises (d : blob) (e : exn) : gunzip d = Raise e -> is_IOError e = true.
Proof. destruct d as [[|c s]|b]; intros [= <-]; reflexivity. Qed.

Lemma copy_compressed_eq (src dst : list string) (s : state) :
  copy_compressed src dst s =
  match open_rb (fs s) src with
  | Raise e => (Raise e, s)
  | Ok _ =>
      match open_wb (fs s) dst (Text "") with
      | Raise e => (Raise e, s)
      | Ok root1 =>
          match open_rb root1 src with
          | Raise e => (Raise e, set_fs root1 s)
          | Ok b =>
              match open_wb root1 dst (Gzip b) with
              | Raise e => (Raise e, set_fs root1 s)
              | Ok root2 => (Ok tt, set_fs root2 (set_fs root1 s))
              end
          end
      end
  end.
Proof.
  unfold copy_compressed, bind, get, lift, modify.
  destruct (open_rb (fs s) src); [|reflexivity].
  destruct (open_wb (fs s) dst (Text "")) as [root1|]; [|reflexivity].
  cbn [fs set_fs]. destruct (open_rb root1 src) as [b|]; [|reflexivity].
  destruct (open_wb root1 dst (Gzip b)); reflexivity.
Qed.

Lemma copy_decompressed_eq (src dst : list string) (s : state) :
  copy_decompressed src dst s =
  match open_rb (fs s) src with
  | Raise e => (Raise e, s)
  | Ok _ =>
      match open_wb (fs s) dst (Text "") with
      | Raise e => (Raise e, s)
      | Ok root1 =>
          match open_rb root1 src with
          | Raise e => (Raise e, set_fs root1 s)
          | Ok c =>
              match gunzip c with
              | Raise e => (Raise e, set_fs root1 s)
              | Ok b =>
                  match open_wb root1 dst b with
                  | Raise e => (Raise e, set_fs root1 s)
                  | Ok root2 => (Ok tt, set_fs root2 (set_fs root1 s))
                  end
              end
          end
      end
  end.
Proof.
  unfold copy_decompressed, bind, get, lift, modify.
  destruct (open_rb (fs s) src); [|reflexivity].
  destruct (open_wb (fs s) dst (Text "")) as [root1|]; [|reflexivity].
  cbn [fs set_fs]. destruct (open_rb root1 src) as [c|]; [|reflexivity].
  destruct (gunzip c) as [b|]; [|reflexivity].
  destruct (open_wb root1 dst b); reflexivity.
Qed.

(** Both copies touch no file but their target, and raise nothing but an
    [IOError]. *)
Lemma copy_compressed_effect (src dst : list string) (s s' : state) (r : result unit) :
  copy_compressed src dst s = (r, s') ->
  files_kept [dst] (fs s) (fs s')
  /\ log s' = log s
  /\ (forall e, r = Raise e -> is_IOError e = true).
Proof.
  rewrite copy_compressed_eq.
  destruct (open_rb (fs s) src) as [b0|e0] eqn:H0.
  2:{ intros [= <- <-]. split; [apply files_kept_refl|]. split; [reflexivity|].
      intros e [= <-]. eapply open_rb_raises; eauto. }
  destruct (open_wb (fs s) dst (Text "")) as [root1|e1] eqn:H1.
  2:{ intros [= <- <-]. split; [apply files_kept_refl|]. split; [reflexivity|].
      intros e [= <-]. eapply open_wb_raises; eauto. }
  pose proof (open_wb_files_kept _ _ _ _ H1) as K1.
  destruct (open_rb root1 src) as [b|e2] eqn:H2.
  2:{ intros [= <- <-]. split; [exact K1|]. split; [reflexivity|].
      intros e [= <-]. eapply open_rb_raises; eauto. }
  destruct (open_wb root1 dst (Gzip b)) as [root2|e3] eqn:H3.
  2:{ intros [= <- <-]. split; [exact K1|]. split; [reflexivity|].
      intros e [= <-]. eapply open_wb_raises; eauto. }
  intros [= <- <-]. split; [|split; [reflexivity | discriminate]].
  eapply files_kept_trans; [exact K1|]. eapply open_wb_files_kept; eauto.
Qed.

Lemma copy_decompressed_effect (src dst : list string) (s s' : state) (r : result unit) :
  copy_decompressed src dst s = (r, s') ->
  files_kept [dst] (fs s) (fs s')
  /\ log s' = log s
  /\ (forall e, r = Raise e -> is_IOError e = true).
Proof.
  rewrite copy_decompressed_eq.
  destruct (open_rb (fs s) src) as [b0|e0] eqn:H0.
  2:{ intros [= <- <-]. split; [apply files_kept_refl|]. split; [reflexivity|].
      intros e [= <-]. eapply open_rb_raises; eauto. }
  destruct (open_wb (fs s) dst (Text "")) as [root1|e1] eqn:H1.
  2:{ intros [= <- <-]. split; [apply files_kept_refl|]. split; [reflexivity|].
      intros e [= <-]. eapply open_wb_raises; eauto. }
  pose proof (open_wb_files_kept _ _ _ _ H1) as K1.
  destruct (open_rb root1 src) as [c|e2] eqn:H2.
  2:{ intros [= <- <-]. split; [exact K1|]. split; [reflexivity|].
      intros e [= <-]. eapply open_rb_raises; eauto. }
  destruct (gunzip c) as [b|e4] eqn:H4.
  2:{ intros [= <- <-]. split; [exact K1|]. split; [reflexivity|].
      intros e [= <-]. eapply gunzip_raises; eauto. }
  destruct (open_wb root1 dst b) as [root2|e3] eqn:H3.
  2:{ intros [= <- <-]. split; [exact K1|]. split; [reflexivity|].
      intros e [= <-]. eapply open_wb_raises; eauto. }
  intros [= <- <-]. split; [|split; [reflexivity | discriminate]].
  eapply files_kept_trans; [exact K1|]. eapply open_wb_files_kept; eauto.
Qed.

Lemma add_subfolder_eq (cfg : BudoConfig) (p : list string) (sub : string) (s : state) :
  exists_ (fs s) (parent p) = true ->
  _add_subfolder_to_end_of_path cfg (Abs p) sub s
  = (Ok (Abs (subfolder_path (fs s) p sub)), s).
Proof.
  intros Hex. unfold _add_subfolder_to_end_of_path, subfolder_path. unfold bind at 1.
  rewrite resolve_path_eq. cbn [resolved is_absolute parts]. rewrite Hex.
  unfold bind, get. cbn [parts]. destruct (is_file (fs s) p); reflexivity.
Qed.

Lemma try_compress_file_eq (cfg : BudoConfig) (p : list string) (s : state) :
  exists_ (fs s) (parent p) = true ->
  let unc := subfolder_path (fs s) p (uncompressed_folder_name cfg) in
  let comp := subfolder_path (fs s) p (compressed_folder_name cfg) in
  exists b s',
    try_compress_file cfg (Abs p) s = (Ok b, s')
    /\ fs s' = fs (snd (copy_compressed unc comp s))
    /\ (b = true <-> fst (copy_compressed unc comp s) = Ok tt)
    /\ (b = true -> log s' = log s).
Proof.
  intros Hex unc comp.
  unfold try_compress_file, _generate_compressed_subpath, _generate_uncompressed_subpath.
  unfold bind at 1. rewrite (add_subfolder_eq _ _ _ _ Hex).
  unfold bind at 1. rewrite (add_subfolder_eq _ _ _ _ Hex).
  unfold try_except, bind at 1. cbn [parts]. fold unc comp.
  destruct (copy_compressed unc comp s) as [[[]|e] s1] eqn:Hcopy.
  - exists true, s1. cbn. destruct (copy_compressed_effect _ _ _ _ _ Hcopy) as (_ & Hlog & _).
    repeat split; auto.
  - destruct (copy_compressed_effect _ _ _ _ _ Hcopy) as (_ & _ & Hio).
    specialize (Hio e eq_refl).
    destruct e; try discriminate Hio;
      (eexists false, _; split; [reflexivity|]; cbn;
       split; [reflexivity|]; split; [split; discriminate | discriminate]).
Qed.

Lemma try_decompress_file_eq (cfg : BudoConfig) (p : list string) (s : state) :
  exists_ (fs s) (parent p) = true ->
  let unc := subfolder_path (fs s) p (uncompressed_folder_name cfg) in
  let comp := subfolder_path (fs s) p (compressed_folder_name cfg) in
  exists b s',
    try_decompress_file cfg (Abs p) s = (Ok b, s')
    /\ fs s' = fs (snd (copy_decompressed comp unc s))
    /\ (b = true <-> fst (copy_decompressed comp unc s) = Ok tt)
    /\ (b = true -> log s' = log s).
Proof.
  intros Hex unc comp.
  unfold try_decompress_file, _generate_compressed_subpath, _generate_uncompressed_subpath.
  unfold bind at 1. rewrite (add_subfolder_eq _ _ _ _ Hex).
  unfold bind at 1. rewrite (add_subfolder_eq _ _ _ _ Hex).
  unfold try_except, bind at 1. cbn [parts]. fold unc comp.
  destruct (copy_decompressed comp unc s) as [[[]|e] s1] eqn:Hcopy.
  - exists true, s1. cbn. destruct (copy_decompressed_effect _ _ _ _ _ Hcopy) as (_ & Hlog & _).
    repeat split; auto.
  - destruct (copy_decompressed_effect _ _ _ _ _ Hcopy) as (_ & _ & Hio).
    specialize (Hio e eq_refl).
    destruct e; try discriminate Hio;
      (eexists false, _; split; [reflexivity|]; cbn;
       split; [reflexivity|]; split; [split; discriminate | discriminate]).
Qed.

Lemma resolve_path_effect (cfg : BudoConfig) (path : Path) (s s1 : state)
    (r : result Path) :
  _resolve_path cfg path s = (r, s1) ->
  (forall p r0 w x,
      walk (fs s1) p = Found (File r0 w x) <-> walk (fs s) p = Found (File r0 w x))
  /\ log s1 = log s
  /\ (forall e, r = Raise e -> s1 = s).
Proof.
  rewrite resolve_path_eq.
  destruct (exists_ (fs s) (parent (resolved cfg path))).
  - intros [= <- <-]. repeat split; auto; discriminate.
  - destruct (mkdir_p (fs s) (parent (resolved cfg path))) as [root'|e] eqn:Hm.
    + intros [= <- <-]. split; [|split; [reflexivity | discriminate]].
      intros p r0 w x. cbn. eapply mkdir_p_files; eauto.
    + intros [= <- <-]. repeat split; auto.
Qed.

Lemma parent_app_longer (p : list string) (a b : string) : p <> parent p ++ [a] ++ [b].
Proof.
  intros H. apply (f_equal (@length string)) in H.
  assert (Hle : length p <= length (removelast p) + 1).
  { clear. induction p as [|c p IH]; [simpl; lia|].
    destruct p as [|c' p]; [simpl; lia|].
    change (removelast (c :: c' :: p)) with (c :: removelast (c' :: p)).
    cbn [length] in *. lia. }
  unfold parent in H. rewrite !length_app in H. cbn [length] in H. lia.
Qed.

Lemma is_file_found (root : node) (p : list string) (r w : bool) (x : blob) :
  walk root p = Found (File r w x) -> is_file root p = true.
Proof. unfold is_file. now intros ->. Qed.

(** The ways [write_textfile] can go. *)
Lemma write_textfile_cases (cfg : BudoConfig) (path : Path) (content : string)
    (s s' : state) (res : result unit) :
  write_textfile cfg path content s = (res, s') ->
  let p := resolved cfg path in
  (exists e, _resolve_path cfg path s = (Raise e, s) /\ res = Raise e /\ s' = s)
  \/ (exists s1 e message,
        _resolve_path cfg path s = (Ok (Abs p), s1)
        /\ open_wb (fs s1) p (Text content) = Raise e
        /\ res = Raise e
        /\ s' = logged ERROR message s1)
  \/ (exists s1 root',
        _resolve_path cfg path s = (Ok (Abs p), s1)
        /\ open_wb (fs s1) p (Text content) = Ok root'
        /\ res = Ok tt
        /\ files_kept [parent p ++ [compressed_folder_name cfg] ++ [name p]] root' (fs s')).
Proof.
  intros H p. unfold write_textfile in H. unfold bind at 1 in H.
  destruct (_resolve_path cfg path s) as [[p'|e] s1] eqn:Hres.
  2:{ injection H as <- <-. left. exists e.
      destruct (resolve_path_effect _ _ _ _ _ Hres) as (_ & _ & Hs). rewrite (Hs e eq_refl).
      auto. }
  destruct (resolve_path_parent _ _ _ _ _ Hres) as [-> Hex]. fold p in Hex, H |- *.
  right. unfold try_except in H. unfold bind at 1, get in H. unfold bind at 1, lift in H.
  cbn [parts] in H.
  destruct (open_wb (fs s1) p (Text content)) as [root'|e] eqn:Hopen.
  2:{ left. pose proof (open_wb_raises _ _ _ _ Hopen) as Hio.
      exists s1, e. destruct e; try discriminate Hio;
        injection H as <- <-; eexists;
        (split; [reflexivity|]; split; [exact Hopen|]; split; reflexivity). }
  right. exists s1, root'. split; [reflexivity|]. split; [exact Hopen|].
  destruct (proj1 (open_wb_spec _ _ _ _ Hopen)) as (r & w & Hp & _).
  unfold bind at 1, modify in H. unfold bind at 1 in H.
  set (s2 := set_fs root' s1) in H.
  assert (Hwarn : exists s3,
             (if negb (String.eqb content "") then ret tt
              else warning ("Empty file created at " ++ path_str p)) s2 = (Ok tt, s3)
             /\ fs s3 = root').
  { destruct (negb (String.eqb content "")); eexists; split; reflexivity. }
  destruct Hwarn as (s3 & Hw & Hfs). rewrite Hw in H.
  destruct (feature_flag_try_write_compressed_backups cfg).
  - assert (Hex3 : exists_ (fs s3) (parent p) = true).
    { rewrite Hfs. eapply walk_parent_exists; eauto. }
    destruct (try_compress_file_eq cfg p s3 Hex3) as (b & s4 & Hc & Hfs4 & _).
    unfold bind in H. rewrite Hc in H. injection H as <- <-.
    split; [reflexivity|]. rewrite Hfs4.
    unfold subfolder_path. rewrite Hfs, (is_file_found _ _ _ _ _ Hp).
    match goal with
    | |- context [copy_compressed ?a ?b s3] =>
        destruct (copy_compressed a b s3) as [rc sc] eqn:Hcopy
    end.
    destruct (copy_compressed_effect _ _ _ _ _ Hcopy) as (K & _). cbn [snd].
    now rewrite Hfs in K.
  - injection H as <- <-. split; [reflexivity|]. rewrite Hfs. apply files_kept_refl.
Qed.

Lemma write_then_read (cfg : BudoConfig) (path : Path) (content : string)
    (missing_ok : bool) (s s' : state) :
  write_textfile cfg path content s = (Ok tt, s') ->
  not_read_protected (fs s) (resolved cfg path) ->
  read_textfile cfg path missing_ok s' = (Ok (universal_newlines content), s').
Proof.
  intros H Hprot.
  destruct (write_textfile_cases _ _ _ _ _ _ H)
    as [(e & _ & He & _)|[(s1 & e & m & _ & _ & He & _)|(s1 & root' & Hres & Hopen & _ & K)]];
    try discriminate.
  apply read_textfile_hit. unfold open_rb.
  destruct (open_wb_spec _ _ _ _ Hopen) as [(r & w & Hp & Hold) _].
  assert (Hr : r = true).
  { destruct Hold as [(old & Hold & _)|(_ & -> & _)]; [|reflexivity].
    apply (resolve_path_effect _ _ _ _ _ Hres) in Hold.
    destruct r; [reflexivity|]. now destruct (Hprot w old). }
  subst r.
  assert (Hkept : walk (fs s') (resolved cfg path) = Found (File true w (Text content))).
  { apply K; [|exact Hp]. intros [Heq|[]]. symmetry in Heq. revert Heq.
    apply parent_app_longer. }
  rewrite Hkept. reflexivity.
Qed.


(** X1. What [write_textfile] has written, [read_textfile] reads back:
    after a write that returned, reading the same path returns the content
    with its line ends normalised and changes nothing, provided the file
    was not protected against reading before. *)
Theorem X1_write_then_read (cfg : BudoConfig) (path : Path) (content : string)
    (missing_ok : bool) (s s' : state) :
  write_textfile cfg path content s = (Ok tt, s') ->
  not_read_protected (fs s) (resolved cfg path) ->
  read_textfile cfg path missing_ok s' = (Ok (universal_newlines content), s').
Proof. apply write_then_read. Qed.

Lemma X1_write_then_read_witness :
  let s' := snd (write_textfile example_config (Rel ["data"; "notes.txt"]) "hello"
                   (initial_state backup_disk)) in
  read_textfile example_config (Rel ["data"; "notes.txt"]) false s' = (Ok "hello", s').
Proof.
  intros s'.
  apply (X1_write_then_read example_config (Rel ["data"; "notes.txt"]) "hello" false
           (initial_state backup_disk) s').
  - vm_compute. reflexivity.
  - intros w x. vm_compute. discriminate.
Defined.

Lemma universal_newlines_no_cr (s : string) : char_in CR (universal_newlines s) = false.
Proof.
  assert (H : forall n s, String.length s <= n -> char_in CR (universal_newlines s) = false).
  { intros n. induction n as [|n IH]; intros [|c t] Hlen; try reflexivity;
      cbn [String.length] in Hlen; [lia|].
    cbn [universal_newlines].
    destruct (Ascii.eqb c CR) eqn:Hc.
    - destruct t as [|d t]; [reflexivity|].
      destruct (Ascii.eqb d LF); cbn [char_in]; rewrite IH;
        cbn [String.length] in *; try lia; reflexivity.
    - cbn [char_in]. rewrite Ascii.eqb_sym, Hc. apply IH. lia. }
  apply (H (String.length s)). lia.
Qed.

Lemma universal_newlines_id (s : string) :
  universal_newlines s = s <-> char_in CR s = false.
Proof.
  split.
  - intros H. rewrite <- H. apply universal_newlines_no_cr.
  - induction s as [|c t IH]; [reflexivity|]. cbn [char_in universal_newlines].
    intros H. apply orb_false_iff in H as [Hc Ht].
    rewrite Ascii.eqb_sym, Hc. f_equal. now apply IH.
Qed.

Lemma read_textfile_rec_no_cr (cfg : BudoConfig) (depth : nat) (path : Path)
    (missing_ok : bool) (s s' : state) (v : string) :
  read_textfile_rec cfg depth path missing_ok s = (Ok v, s') ->
  char_in CR v = false.
Proof.
  revert path missing_ok s s' v.
  induction depth as [|depth IH]; intros path missing_ok s s' v; [discriminate|].
  rewrite read_textfile_rec_eq.
  destruct (_resolve_path cfg path s) as [[p|e] s1]; [|discriminate].
  destruct (open_rb (fs s1) (parts p)) as [d|e].
  - destruct d as [t|b]; cbn [decode]; [|discriminate].
    intros [= <- _]. apply universal_newlines_no_cr.
  - destruct e; try discriminate; try (destruct (is_IOError _); discriminate).
    destruct ((if feature_flag_try_read_compressed_backups cfg
               then try_decompress_file cfg p else ret false) s1) as [[[|]|e] s2];
      [| |discriminate].
    + unfold _try_recursive_call_with, bind, get, modify.
      destruct (_in_recursion_loop s2); cbn [negb].
      * intros [= <- _]. reflexivity.
      * destruct (read_textfile_rec cfg depth p missing_ok (set_in_recursion_loop true s2))
          as [[t|e] s3] eqn:Hrec; [|discriminate].
        intros [= <- _]. eapply IH; eauto.
    + destruct missing_ok; [|discriminate]. intros [= <- _]. reflexivity.
Qed.

(** X2. [read_textfile] normalises line ends: no text it returns holds a
    carriage return, and a text written with [write_textfile] is read back
    exactly as it was written if and only if it holds none. *)
Theorem X2_line_ends_normalised (cfg : BudoConfig) (path : Path) (missing_ok : bool) :
  (forall s s' v,
      read_textfile cfg path missing_ok s = (Ok v, s') -> char_in CR v = false)
  /\ (forall content s s',
      write_textfile cfg path content s = (Ok tt, s') ->
      not_read_protected (fs s) (resolved cfg path) ->
      (read_textfile cfg path missing_ok s' = (Ok content, s')
       <-> char_in CR content = false)).
Proof.
  split.
  - intros s s' v. apply read_textfile_rec_no_cr.
  - intros content s s' Hw Hp.
    rewrite (write_then_read _ _ _ missing_ok _ _ Hw Hp), <- universal_newlines_id.
    split; [intros [= H]; exact H | intros ->; reflexivity].
Qed.

Lemma X2_line_ends_normalised_witness :
  let crlf := String "a"%char (String CR (String LF "b")) in
  let path := Rel ["data"; "notes.txt"] in
  let s' := snd (write_textfile example_config path crlf (initial_state backup_disk)) in
  char_in CR "a" = false
  /\ read_textfile example_config path false s' <> (Ok crlf, s').
Proof.
  intros crlf path s'.
  destruct (X2_line_ends_normalised example_config path false) as [H1 H2].
  split.
  - apply (H1 (snd (write_textfile example_config path "a" (initial_state backup_disk)))
              (snd (write_textfile example_config path "a" (initial_state backup_disk)))).
    vm_compute. reflexivity.
  - intros Heq.
    assert (Hcr : char_in CR crlf = false).
    { apply (H2 crlf (initial_state backup_disk) s').
      - vm_compute. reflexivity.
      - intros w x. vm_compute. discriminate.
      - exact Heq. }
    vm_compute in Hcr. discriminate.
Defined.

(** ** BudoPersistence: writing *)

Lemma write_textfile_files_kept (cfg : BudoConfig) (path : Path) (content : string)
    (s : state) :
  let p := resolved cfg path in
  files_kept [p; parent p ++ [compressed_folder_name cfg] ++ [name p]]
    (fs s) (fs (snd (write_textfile cfg path content s))).
Proof.
  intros p.
  destruct (write_textfile cfg path content s) as [res s'] eqn:H. cbn [snd].
  destruct (write_textfile_cases _ _ _ _ _ _ H)
    as [(e & _ & _ & ->)|[(s1 & e & m & Hres & _ & _ & ->)|(s1 & root' & Hres & Hopen & _ & K)]].
  - apply files_kept_refl.
  - intros q r w x _ Hq. cbn. now apply (resolve_path_effect _ _ _ _ _ Hres).
  - intros q r w x Hq Hw.
    apply K; [intros [<-|[]]; apply Hq; right; now left|].
    apply (proj2 (open_wb_spec _ _ _ _ Hopen)); [intros ->; apply Hq; now left|].
    now apply (resolve_path_effect _ _ _ _ _ Hres).
Qed.




(** ** BudoPersistence: resolving *)

(** X5. [_resolve_path] creates directories only and is idempotent: when it
    returns, the parent directory of the returned path exists, the files of
    the tree are those it had before, and resolving the returned path again
    returns it unchanged without a further effect. *)
Theorem X5_resolve_path_idempotent (cfg : BudoConfig) (path p : Path) (s s1 : state) :
  _resolve_path cfg path s = (Ok p, s1) ->
  exists_ (fs s1) (parent (parts p)) = true
  /\ (forall q r w x,
        walk (fs s1) q = Found (File r w x) <-> walk (fs s) q = Found (File r w x))
  /\ _resolve_path cfg p s1 = (Ok p, s1)
  /\ _resolve_path cfg path s1 = (Ok p, s1).
Proof.
  intros H. destruct (resolve_path_parent _ _ _ _ _ H) as [-> Hex].
  split; [exact Hex|]. split; [apply (resolve_path_effect _ _ _ _ _ H)|].
  split; rewrite resolve_path_eq; cbn [resolved is_absolute parts]; rewrite Hex; reflexivity.
Qed.

Lemma X5_resolve_path_idempotent_witness :
  let s := initial_state (Dir [("w", Dir [("fixed.txt", File true false (Text "old"))])]) in
  let p := Abs ["w"; "data"; "webcache"; "notes.txt"] in
  let s1 := snd (_resolve_path example_config (Rel ["data"; "webcache"; "notes.txt"]) s) in
  exists_ (fs s) ["w"; "data"; "webcache"] = false
  /\ exists_ (fs s1) ["w"; "data"; "webcache"] = true
  /\ walk (fs s1) ["w"; "fixed.txt"] = Found (File true false (Text "old"))
  /\ _resolve_path example_config p s1 = (Ok p, s1).
Proof.
  intros s p s1.
  destruct (X5_resolve_path_idempotent example_config
              (Rel ["data"; "webcache"; "notes.txt"]) p s s1) as (H1 & H2 & H3 & _).
  { reflexivity. }
  split; [reflexivity|]. split; [exact H1|]. split; [|exact H3].
  apply H2. reflexivity.
Defined.

(** ** BudoPersistence: the backup methods *)






(** ** BudoPersistence: what reading does to the file tree *)

Lemma read_textfile_tree (cfg : BudoConfig) (path : Path) (missing_ok : bool) (s : state) :
  fs (snd (read_textfile cfg path missing_ok s)) = fs (snd (_resolve_path cfg path s))
  /\ _in_recursion_loop (snd (read_textfile cfg path missing_ok s)) = _in_recursion_loop s.
Proof.
  unfold read_textfile. change recursion_limit with (S (pred recursion_limit)).
  rewrite read_textfile_rec_eq.
  pose proof (keeps_resolve_path cfg path s) as (_ & _ & Hloop & _).
  destruct (_resolve_path cfg path s) as [[p|e] s1] eqn:Hres; cbn [snd] in *; [|auto].
  destruct (resolve_path_parent _ _ _ _ _ Hres) as [-> Hex]. cbn [parts].
  destruct (open_rb (fs s1) (resolved cfg path)) as [d|e] eqn:Hopen.
  - destruct d; cbn; auto.
  - destruct e; cbn; auto.
    destruct (feature_flag_try_read_compressed_backups cfg).
    + rewrite (try_decompress_file_after_miss _ _ _ Hopen Hex).
      destruct missing_ok; cbn; auto.
    + destruct missing_ok; cbn; auto.
Qed.


(** ** BudoPersistence: compressing and decompressing again *)

Lemma put_found (root : node) (p : list string) (n new : node) :
  walk root p = Found n -> exists root', put root p new = Some root'.
Proof.
  revert root. induction p as [|c p IH]; intros root; cbn [walk put]; [eauto|].
  destruct root as [? ? ?|es]; [discriminate|].
  destruct (assoc c es) as [m|]; [|discriminate].
  intros H. destruct p as [|c' p]; [eauto|].
  destruct (IH m H) as [m' ->]. eauto.
Qed.

Lemma put_reflects_file (root root' : node) (q p : list string)
    (r0 w0 : bool) (d : blob) (r w : bool) (x : blob) :
  put root q (File r0 w0 d) = Some root' ->
  p <> q ->
  walk root' p = Found (File r w x) ->
  walk root p = Found (File r w x).
Proof.
  revert root root' p. induction q as [|c q IH]; intros root root' p; cbn [put].
  - intros [= <-] Hne Hp. destruct p; [congruence | discriminate].
  - destruct root as [? ? ?|es]; [discriminate|].
    intros Hput Hne Hp. destruct p as [|c2 p].
    + exfalso. destruct q as [|c' q].
      * injection Hput as <-. discriminate.
      * destruct (assoc c es) as [m|]; [|discriminate].
        destruct (put m (c' :: q) _); [|discriminate].
        injection Hput as <-. discriminate.
    + cbn [walk]. destruct (String.eqb_spec c c2) as [<-|Hc].
      * destruct q as [|c' q].
        -- injection Hput as <-. cbn [walk] in Hp. rewrite assoc_set_same in Hp.
           exfalso. destruct p; [congruence | discriminate].
        -- destruct (assoc c es) as [m|] eqn:Hm; [|discriminate].
           destruct (put m (c' :: q) _) as [m'|] eqn:Hm'; [|discriminate].
           injection Hput as <-. cbn [walk] in Hp. rewrite assoc_set_same in Hp.
           apply (IH m m'); auto. congruence.
      * assert (Hroot : exists es', root' = Dir es' /\ assoc c2 es' = assoc c2 es).
        { destruct q as [|c' q].
          - injection Hput as <-. eexists. split; [reflexivity|]. now apply assoc_set_other.
          - destruct (assoc c es) as [m|]; [|discriminate].
            destruct (put m (c' :: q) _) as [m'|]; [|discriminate].
            injection Hput as <-. eexists. split; [reflexivity|].
            now apply assoc_set_other. }
        destruct Hroot as (es' & -> & Hes). cbn [walk] in Hp. now rewrite Hes in Hp.
Qed.

Lemma open_wb_files_iff (root root' : node) (q p : list string) (d : blob)
    (r w : bool) (x : blob) :
  open_wb root q d = Ok root' ->
  p <> q ->
  walk root' p = Found (File r w x) <-> walk root p = Found (File r w x).
Proof.
  intros H Hne. split; [|now apply (proj2 (open_wb_spec _ _ _ _ H))].
  revert H. unfold open_wb.
  destruct (walk root q) as [[r1 w1 old|es]| |]; try discriminate.
  - destruct w1; [|discriminate].
    destruct (put root q (File r1 true d)) as [root1|] eqn:Hput; [|discriminate].
    intros [= <-]. eapply put_reflects_file; eauto.
  - destruct (walk root (parent q)) as [[? ? ?|es]| |]; try discriminate.
    destruct (put root q (File true true d)) as [root1|] eqn:Hput; [|discriminate].
    intros [= <-]. eapply put_reflects_file; eauto.
Qed.

Lemma open_wb_is_file (root root' : node) (q p : list string) (d : blob) :
  open_wb root q d = Ok root' -> p <> q -> is_file root' p = is_file root p.
Proof.
  intros H Hne. unfold is_file.
  destruct (walk root p) as [[r w x|es]| |] eqn:Hp.
  - now rewrite (proj2 (open_wb_files_iff _ _ _ _ _ _ _ _ H Hne) Hp).
  - destruct (walk root' p) as [[r w x|es']| |] eqn:Hp'; try reflexivity.
    apply (open_wb_files_iff _ _ _ _ _ _ _ _ H Hne) in Hp'. congruence.
  - destruct (walk root' p) as [[r w x|es']| |] eqn:Hp'; try reflexivity.
    apply (open_wb_files_iff _ _ _ _ _ _ _ _ H Hne) in Hp'. congruence.
  - destruct (walk root' p) as [[r w x|es']| |] eqn:Hp'; try reflexivity.
    apply (open_wb_files_iff _ _ _ _ _ _ _ _ H Hne) in Hp'. congruence.
Qed.

Lemma open_wb_on_file (root : node) (q : list string) (d : blob) (r : bool) (x : blob) :
  walk root q = Found (File r true x) ->
  exists root', open_wb root q d = Ok root' /\ walk root' q = Found (File r true d).
Proof.
  intros Hq. unfold open_wb. rewrite Hq.
  destruct (put_found _ _ _ (File r true d) Hq) as [root' Hput]. rewrite Hput.
  exists root'. split; [reflexivity|]. eapply walk_put_same; eauto.
Qed.

Lemma open_rb_file (root : node) (p : list string) (d : blob) :
  open_rb root p = Ok d <-> exists w, walk root p = Found (File true w d).
Proof.
  unfold open_rb. destruct (walk root p) as [[r w x|es]| |].
  - destruct r.
    + split; [intros [= ->]; eauto | intros [w' H]; injection H as _ ->; reflexivity].
    + split; [discriminate | intros [w' H]; discriminate].
  - split; [discriminate | intros [w' H]; discriminate].
  - split; [discriminate | intros [w' H]; discriminate].
  - split; [discriminate | intros [w' H]; discriminate].
Qed.

Lemma subfolder_path_differ (root : node) (p : list string) (a b : string) :
  a <> b -> subfolder_path root p a <> subfolder_path root p b.
Proof.
  intros Hne. unfold subfolder_path. destruct (is_file root p); intros H.
  - apply app_inv_head in H. cbn in H. congruence.
  - apply app_inv_head in H. congruence.
Qed.

Lemma subfolder_path_longer (root : node) (p : list string) (a : string) :
  p <> subfolder_path root p a.
Proof.
  unfold subfolder_path. destruct (is_file root p); [apply parent_app_longer|].
  intros H. apply (f_equal (@length string)) in H. rewrite length_app in H.
  cbn [length] in H. lia.
Qed.

Lemma compress_then_decompress (cfg : BudoConfig) (p : list string) (s s1 : state) :
  let unc := subfolder_path (fs s) p (uncompressed_folder_name cfg) in
  let comp := subfolder_path (fs s) p (compressed_folder_name cfg) in
  exists_ (fs s) (parent p) = true ->
  compressed_folder_name cfg <> uncompressed_folder_name cfg ->
  not_read_protected (fs s) comp ->
  (forall r x, walk (fs s) unc <> Found (File r false x)) ->
  try_compress_file cfg (Abs p) s = (Ok true, s1) ->
  exists b s2,
    open_rb (fs s) unc = Ok b
    /\ open_rb (fs s1) comp = Ok (Gzip b)
    /\ try_decompress_file cfg (Abs p) s1 = (Ok true, s2)
    /\ open_rb (fs s2) unc = Ok b
    /\ open_rb (fs s2) comp = Ok (Gzip b).
Proof.
  intros unc comp Hex Hnames Hread Hwrite Hc.
  assert (Hdiff : unc <> comp).
  { apply subfolder_path_differ. congruence. }
  destruct (try_compress_file_eq cfg p s Hex) as (b0 & s1' & Hc' & Hfs & Hb & _).
  rewrite Hc in Hc'. injection Hc' as <- <-.
  fold unc comp in Hfs, Hb. apply proj1 in Hb. specialize (Hb eq_refl).
  rewrite copy_compressed_eq in Hfs, Hb.
  destruct (open_rb (fs s) unc) as [b|] eqn:H0; [|discriminate].
  destruct (open_wb (fs s) comp (Text "")) as [root1|] eqn:H1; [|discriminate].
  destruct (open_rb root1 unc) as [b'|] eqn:H2; [|discriminate].
  destruct (open_wb root1 comp (Gzip b')) as [root2|] eqn:H3; [|discriminate].
  cbn in Hfs. clear Hb.
  (* the uncompressed file through the two writes *)
  apply open_rb_file in H0 as [wu Hu].
  assert (Hwu : wu = true) by (destruct wu; [reflexivity | now destruct (Hwrite true b)]).
  subst wu.
  assert (Hu1 : walk root1 unc = Found (File true true b))
    by now apply (open_wb_files_iff _ _ _ _ _ _ _ _ H1 Hdiff).
  assert (Hbb : b' = b).
  { apply open_rb_file in H2 as [w2 H2]. congruence. }
  subst b'.
  assert (Hu2 : walk root2 unc = Found (File true true b))
    by now apply (open_wb_files_iff _ _ _ _ _ _ _ _ H3 Hdiff).
  (* the compressed file *)
  destruct (proj1 (open_wb_spec _ _ _ _ H1)) as (r1 & w1 & Hc1 & Hold1).
  assert (Hr1 : r1 = true).
  { destruct Hold1 as [(old & Hold & _)|(_ & -> & _)]; [|reflexivity].
    destruct r1; [reflexivity | now destruct (Hread w1 old)]. }
  subst r1.
  destruct (proj1 (open_wb_spec _ _ _ _ H3)) as (r2 & w2 & Hc2 & Hold2).
  assert (Hrw2 : r2 = true /\ w2 = true).
  { destruct Hold2 as [(old & Hold & ->)|(Hno & _)]; [|congruence].
    rewrite Hc1 in Hold. injection Hold as <- _ _. auto. }
  destruct Hrw2 as [-> ->].
  (* the paths are derived alike after the writes *)
  assert (Hfile : is_file root2 p = is_file (fs s) p).
  { rewrite (open_wb_is_file _ _ _ _ _ H3), (open_wb_is_file _ _ _ _ _ H1);
      [reflexivity | apply subfolder_path_longer | apply subfolder_path_longer]. }
  assert (Hex1 : exists_ (fs s1) (parent p) = true).
  { rewrite Hfs. unfold unc, subfolder_path in Hu2.
    destruct (is_file (fs s) p) eqn:Hf.
    - unfold is_file in Hfile.
      destruct (walk root2 p) as [[r w x|]| |] eqn:Hp; try discriminate.
      eapply walk_parent_exists; eauto.
    - pose proof (walk_parent_exists _ _ _ Hu2) as Hp. unfold parent in Hp.
      rewrite removelast_last in Hp. unfold exists_ in Hp.
      destruct (walk root2 p) as [n| |] eqn:Hwp; try discriminate.
      eapply walk_parent_exists; eauto. }
  destruct (try_decompress_file_eq cfg p s1 Hex1) as (bd & s2 & Hd & Hfs2 & Hbd & _).
  assert (Hpaths : forall sub, subfolder_path (fs s1) p sub = subfolder_path (fs s) p sub).
  { intros sub. unfold subfolder_path. now rewrite Hfs, Hfile. }
  rewrite !Hpaths in Hfs2, Hbd. fold unc comp in Hfs2, Hbd.
  rewrite copy_decompressed_eq in Hfs2, Hbd. rewrite Hfs in Hfs2, Hbd.
  assert (Hrc : open_rb root2 comp = Ok (Gzip b)).
  { apply open_rb_file. eauto. }
  rewrite Hrc in Hfs2, Hbd.
  destruct (open_wb_on_file root2 unc (Text "") true b Hu2) as (root3 & H4 & Hu3).
  rewrite H4 in Hfs2, Hbd.
  assert (Hc3 : walk root3 comp = Found (File true true (Gzip b))).
  { apply (open_wb_files_iff _ _ _ _ _ _ _ _ H4); [congruence | exact Hc2]. }
  assert (Hrc3 : open_rb root3 comp = Ok (Gzip b)).
  { apply open_rb_file. eauto. }
  rewrite Hrc3 in Hfs2, Hbd. cbn [gunzip] in Hfs2, Hbd.
  destruct (open_wb_on_file root3 unc b true (Text "") Hu3) as (root4 & H5 & Hu4).
  rewrite H5 in Hfs2, Hbd. cbn in Hfs2, Hbd.
  assert (Hc4 : walk root4 comp = Found (File true true (Gzip b))).
  { apply (open_wb_files_iff _ _ _ _ _ _ _ _ H5); [congruence | exact Hc3]. }
  exists b, s2. split; [reflexivity|].
  split; [rewrite Hfs; exact Hrc|].
  split; [rewrite Hd; f_equal; f_equal; now apply Hbd|].
  rewrite Hfs2. split; apply open_rb_file; eauto.
Qed.

(** X7. Compressing and then decompressing gives the bytes back.  When
    [try_compress_file] returns [True] for a resolved path, the compressed
    copy holds the gzip of the bytes of the uncompressed file; a following
    [try_decompress_file] of the same path returns [True] and leaves the
    uncompressed file with exactly those bytes.  This needs the two folder
    names to differ, a compressed copy that may be read and an uncompressed
    file that may be written. *)
Theorem X7_compress_then_decompress (cfg : BudoConfig) (p : list string) (s s1 : state) :
  let unc := subfolder_path (fs s) p (uncompressed_folder_name cfg) in
  let comp := subfolder_path (fs s) p (compressed_folder_name cfg) in
  exists_ (fs s) (parent p) = true ->
  compressed_folder_name cfg <> uncompressed_folder_name cfg ->
  not_read_protected (fs s) comp ->
  (forall r x, walk (fs s) unc <> Found (File r false x)) ->
  try_compress_file cfg (Abs p) s = (Ok true, s1) ->
  exists b s2,
    open_rb (fs s) unc = Ok b
    /\ open_rb (fs s1) comp = Ok (Gzip b)
    /\ try_decompress_file cfg (Abs p) s1 = (Ok true, s2)
    /\ open_rb (fs s2) unc = Ok b
    /\ open_rb (fs s2) comp = Ok (Gzip b).
Proof. apply compress_then_decompress. Qed.

Lemma X7_compress_then_decompress_witness :
  let s := snd (write_textfile example_config (Rel ["data"; "notes.txt"]) "hello"
                  (initial_state backup_disk)) in
  let p := ["w"; "data"; "notes.txt"] in
  let unc := ["w"; "data"; "uncompressed_files"; "notes.txt"] in
  let comp := ["w"; "data"; "compressed_backups"; "notes.txt"] in
  let s1 := snd (try_compress_file example_config (Abs p) s) in
  exists b s2,
    open_rb (fs s) unc = Ok b
    /\ open_rb (fs s1) comp = Ok (Gzip b)
    /\ try_decompress_file example_config (Abs p) s1 = (Ok true, s2)
    /\ open_rb (fs s2) unc = Ok b
    /\ open_rb (fs s2) comp = Ok (Gzip b).
Proof.
  intros s p unc comp s1.
  apply (X7_compress_then_decompress example_config p s s1).
  - reflexivity.
  - discriminate.
  - intros w x. vm_compute. discriminate.
  - intros r x. vm_compute. discriminate.
  - vm_compute. reflexivity.
Defined.

(** ** BudoTrimmer: trimming only warns *)













(** ** BudoTrimmer: what bounding returns *)









(** ** BudoTrimmer: validation *)

Lemma set_log_set_log (l1 l2 : list (level * string)) (s : state) :
  set_log l2 (set_log l1 s) = set_log l2 s.
Proof. reflexivity. Qed.



(** ** BudoTrimmer: the registry *)

Lemma assoc_set_keys {A : Type} (k : string) (v : A) (l : list (string * A)) :
  map fst (assoc_set k v l)
  = match assoc k l with
    | Some _ => map fst l
    | None => map fst l ++ [k]
    end.
Proof.
  induction l as [|[k0 v0] l IH]; cbn [assoc_set assoc map fst app]; [reflexivity|].
  destruct (String.eqb_spec k k0) as [->|Hne]; cbn [map fst]; [reflexivity|].
  rewrite IH. destruct (assoc k l); reflexivity.
Qed.


Lemma NoDup_snoc (l : list string) (k : string) :
  List.NoDup l -> ~ In k l -> List.NoDup (l ++ [k]).
Proof.
  intros Hl Hk. induction Hl as [|x l Hx Hl IH]; cbn.
  - constructor; [intros [] | constructor].
  - constructor.
    + rewrite in_app_iff. intros [H|[H|[]]]; [contradiction|].
      apply Hk. now left.
    + apply IH. intros H. apply Hk. now right.
Qed.





(** ** BudoTrimmer: registering and trimming *)









(** ** BudoHtml: file names for every URL *)














(** ** BudoHtml: what a fetch leaves alone *)

Lemma fetch_kept_refl (url : string) (but : list (list string)) (s : state) :
  fetch_kept url but s s.
Proof. repeat split; auto. apply files_kept_refl. Qed.

Lemma fetch_kept_trans (url : string) (but : list (list string)) (s1 s2 s3 : state) :
  fetch_kept url but s1 s2 -> fetch_kept url but s2 s3 -> fetch_kept url but s1 s3.
Proof.
  intros (A1 & B1 & C1 & D1) (A2 & B2 & C2 & D2). repeat split; try congruence.
  - intros u Hu. rewrite (C2 u Hu). now apply C1.
  - eapply files_kept_trans; eauto.
Qed.

Section FetchFrame.

Variable cfg : BudoConfig.
Variable net : string -> nat -> response.

Lemma send_request_eq (url : string) (timeout : nat) (s : state) :
  _send_request net url timeout s =
  match net url timeout with
  | Body text => (Ok text, set_requests (requests s ++ [url]) s)
  | URLError =>
      (Ok "", logged ERROR "A url or http error occurred: URLError"
                (set_requests (requests s ++ [url]) s))
  end.
Proof.
  unfold _send_request, bind, modify. destruct (net url timeout); reflexivity.
Qed.

Lemma fetch_url_eq (url : string) (path : option Path) (timeout : nat) (s : state) :
  fetch_url cfg net url path timeout s =
  match try_get_cached_html cfg url path s with
  | (Ok c, s1) =>
      if String.eqb c "" then
        match _send_request net url timeout s1 with
        | (Ok html, s2) =>
            match cache_html_for_later cfg url html path s2 with
            | (Ok _, s3) => (Ok html, s3)
            | (Raise e, s3) => (Raise e, s3)
            end
        | (Raise e, s2) => (Raise e, s2)
        end
      else (Ok c, s1)
  | (Raise e, s1) => (Raise e, s1)
  end.
Proof.
  unfold fetch_url. unfold bind at 1.
  destruct (try_get_cached_html cfg url path s) as [[c|e] s1]; [|reflexivity].
  destruct (String.eqb c ""); cbn [negb]; [|reflexivity].
  unfold bind. destruct (_send_request net url timeout s1) as [[html|e] s2]; [|reflexivity].
  destruct (cache_html_for_later cfg url html path s2) as [[[]|e] s3]; reflexivity.
Qed.

Lemma search_url_effect (url : string) (path : option Path) (s s1 : state)
    (r : result string) :
  _search_url_in_local_webcache cfg url path s = (r, s1) ->
  memory_kept s s1
  /\ _in_recursion_loop s1 = _in_recursion_loop s
  /\ (forall q r0 w x,
        walk (fs s1) q = Found (File r0 w x) <-> walk (fs s) q = Found (File r0 w x))
  /\ (feature_flag_read_webcache cfg = false -> r = Ok "" /\ s1 = s).
Proof.
  intros H. pose proof (keeps_search_url cfg url path s) as Hm.
  rewrite H in Hm. cbn [snd] in Hm. split; [exact Hm|].
  unfold _search_url_in_local_webcache in H.
  destruct (feature_flag_read_webcache cfg).
  - unfold try_read_textfile, bind, ret in H.
    match type of H with
    | context [read_textfile cfg ?p true s] =>
        pose proof (read_textfile_tree cfg p true s) as [Hfs Hloop];
        destruct (read_textfile cfg p true s) as [[v|e] s2];
        destruct (_resolve_path cfg p s) as [r1 s3] eqn:Hres
    end;
    cbn [snd] in *; injection H as <- <-;
    (split; [exact Hloop|]); (split; [|discriminate]);
    rewrite Hfs; apply (resolve_path_effect _ _ _ _ _ Hres).
  - injection H as <- <-. repeat split; auto.
Qed.

Lemma try_get_cached_html_effect (url : string) (path : option Path) (s s1 : state)
    (r : result string) :
  try_get_cached_html cfg url path s = (r, s1) ->
  fetch_kept url [] s s1
  /\ requests s1 = requests s
  /\ (forall q r0 w x,
        walk (fs s1) q = Found (File r0 w x) <-> walk (fs s) q = Found (File r0 w x))
  /\ (feature_flag_read_webcache cfg = false -> s1 = s /\ exists v, r = Ok v).
Proof.
  rewrite try_get_cached_html_eq. intros H.
  destruct (_webcache s !! url) as [c|] eqn:Hc.
  { injection H as <- <-. split; [apply fetch_kept_refl|]. split; [reflexivity|].
    split; [reflexivity|]. eauto. }
  destruct (_search_url_in_local_webcache cfg url path s) as [r1 s2] eqn:Hsearch.
  destruct (search_url_effect _ _ _ _ _ Hsearch)
    as ((Hweb & Hreg & Hreq) & Hloop & Hfiles & Hoff).
  assert (Hkept : files_kept [] (fs s) (fs s2)).
  { intros q r0 w x _ Hq. now apply Hfiles. }
  assert (Hbase : fetch_kept url [] s s2).
  { split; [exact Hreg|]. split; [exact Hloop|]. split; [|exact Hkept].
    intros u _. now rewrite Hweb. }
  assert (Hins : forall v, fetch_kept url [] s
                             (set_webcache (<[url := v]> (_webcache s2)) s2)).
  { intros v. split; [exact Hreg|]. split; [exact Hloop|]. split; [|exact Hkept].
    intros u Hu. cbn. rewrite lookup_insert_ne by congruence. now rewrite Hweb. }
  destruct r1 as [v|e].
  - destruct (String.eqb_spec v "") as [->|Hv]; injection H as <- <-.
    + split; [exact Hbase|]. split; [exact Hreq|]. split; [exact Hfiles|].
      intros Hf. destruct (Hoff Hf) as [_ ->]. eauto.
    + split; [apply Hins|]. split; [exact Hreq|]. split; [exact Hfiles|].
      intros Hf. destruct (Hoff Hf) as [[= E] _]. now destruct Hv.
  - injection H as <- <-.
    split; [exact Hbase|]. split; [exact Hreq|]. split; [exact Hfiles|].
    intros Hf. destruct (Hoff Hf) as [[=] _].
Qed.

Lemma cache_html_for_later_effect (url html : string) (path : option Path)
    (s s1 : state) (r : result unit) :
  cache_html_for_later cfg url html path s = (r, s1) ->
  fetch_kept url (written_files cfg (cache_file cfg url path)) s s1
  /\ requests s1 = requests s
  /\ (feature_flag_write_webcache cfg = false -> fs s1 = fs s /\ r = Ok tt).
Proof.
  unfold cache_html_for_later. unfold bind at 1.
  destruct (quiet_trim_html url html None s) as (c & sb & Htrim & Hfs & Hw & Hreg & Hloop & Hreq).
  rewrite Htrim. unfold bind at 1, modify.
  set (s2 := set_webcache (<[url := c]> (_webcache sb)) sb).
  assert (H2 : fetch_kept url (written_files cfg (cache_file cfg url path)) s s2
               /\ requests s2 = requests s /\ fs s2 = fs s).
  { repeat split; cbn; auto.
    - intros u Hu. rewrite lookup_insert_ne by congruence. congruence.
    - rewrite Hfs. apply files_kept_refl. }
  destruct H2 as (K2 & R2 & F2).
  destruct (feature_flag_write_webcache cfg).
  - unfold _write_html_to_disk, cache_file, written_files.
    set (p := match path with
              | Some path0 => path0
              | None => _get_path_for_cached_html cfg url
              end).
    intros H.
    pose proof (write_textfile_files_kept cfg p c s2) as Hk.
    pose proof (keeps_write_textfile cfg p c s2) as (Hw' & Hreg' & Hloop' & Hreq').
    rewrite H in Hk, Hw', Hreg', Hloop', Hreq'. cbn [snd] in *.
    split; [|split; [congruence | discriminate]].
    eapply fetch_kept_trans; [exact K2|].
    repeat split; auto. intros u _. congruence.
  - intros [= <- <-]. split; [exact K2|]. split; [exact R2|]. auto.
Qed.

Lemma fetch_url_effect (url : string) (path : option Path) (timeout : nat) (s : state) :
  let s' := snd (fetch_url cfg net url path timeout s) in
  fetch_kept url (written_files cfg (cache_file cfg url path)) s s'
  /\ (requests s' = requests s \/ requests s' = requests s ++ [url]).
Proof.
  cbv zeta. rewrite fetch_url_eq.
  destruct (try_get_cached_html cfg url path s) as [r1 s1] eqn:Hget.
  destruct (try_get_cached_html_effect _ _ _ _ _ Hget) as (K1 & R1 & _ & _).
  assert (K1' : fetch_kept url (written_files cfg (cache_file cfg url path)) s s1).
  { destruct K1 as (A & B & C & D). repeat split; auto.
    eapply files_kept_weaken; [|exact D]. intros q []. }
  destruct r1 as [c|e]; [|cbn [snd]; auto].
  destruct (String.eqb c ""); [|cbn [snd]; auto].
  assert (Hsend : exists html s2,
             _send_request net url timeout s1 = (Ok html, s2)
             /\ fetch_kept url (written_files cfg (cache_file cfg url path)) s1 s2
             /\ requests s2 = requests s1 ++ [url]).
  { rewrite send_request_eq. destruct (net url timeout); eexists _, _;
      (split; [reflexivity|]); (split; [|reflexivity]);
      repeat split; auto; apply files_kept_refl. }
  destruct Hsend as (html & s2 & -> & K2 & R2).
  destruct (cache_html_for_later cfg url html path s2) as [r3 s3] eqn:Hcache.
  destruct (cache_html_for_later_effect _ _ _ _ _ _ Hcache) as (K3 & R3 & _).
  assert (K : fetch_kept url (written_files cfg (cache_file cfg url path)) s s3).
  { eapply fetch_kept_trans; [exact K1'|]. eapply fetch_kept_trans; eauto. }
  destruct r3 as [[]|e]; cbn [snd]; (split; [exact K|]); right; congruence.
Qed.


End FetchFrame.




(** ** BudoHtml: the cache file after a fetch *)

Lemma write_textfile_file (cfg : BudoConfig) (path : Path) (content : string)
    (s s' : state) :
  write_textfile cfg path content s = (Ok tt, s') ->
  not_read_protected (fs s) (resolved cfg path) ->
  open_rb (fs s') (resolved cfg path) = Ok (Text content).
Proof.
  intros H Hprot.
  destruct (write_textfile_cases _ _ _ _ _ _ H)
    as [(e & _ & He & _)|[(s1 & e & m & _ & _ & He & _)|(s1 & root' & Hres & Hopen & _ & K)]];
    try discriminate.
  unfold open_rb.
  destruct (open_wb_spec _ _ _ _ Hopen) as [(r & w & Hp & Hold) _].
  assert (Hr : r = true).
  { destruct Hold as [(old & Hold & _)|(_ & -> & _)]; [|reflexivity].
    apply (resolve_path_effect _ _ _ _ _ Hres) in Hold.
    destruct r; [reflexivity|]. now destruct (Hprot w old). }
  subst r.
  assert (Hkept : walk (fs s') (resolved cfg path) = Found (File true w (Text content))).
  { apply K; [|exact Hp]. intros [Heq|[]]. symmetry in Heq. revert Heq.
    apply parent_app_longer. }
  rewrite Hkept. reflexivity.
Qed.

Section FetchRestart.

Variable cfg : BudoConfig.

Lemma fetch_url_disk_hit (net : string -> nat -> response) (url : string)
    (path : option Path) (timeout : nat) (s : state) (raw : string) :
  _webcache s !! url = None ->
  feature_flag_read_webcache cfg = true ->
  open_rb (fs s) (cache_file cfg url path) = Ok (Text raw) ->
  universal_newlines raw <> "" ->
  fetch_url cfg net url path timeout s
  = (Ok (universal_newlines raw),
     set_webcache (<[url := universal_newlines raw]> (_webcache s)) s).
Proof.
  intros Hnone Hflag Hfile Hne.
  rewrite fetch_url_eq, try_get_cached_html_eq, Hnone.
  unfold _search_url_in_local_webcache, try_read_textfile. rewrite Hflag.
  unfold bind at 1. unfold cache_file in Hfile.
  rewrite (read_textfile_hit _ _ _ _ _ Hfile). cbn [ret].
  assert (E : String.eqb (universal_newlines raw) "" = false)
    by now apply String.eqb_neq.
  rewrite E. cbv beta iota. rewrite E. reflexivity.
Qed.

Lemma fetch_then_restart (net net' : string -> nat -> response) (url : string)
    (path : option Path) (timeout timeout' : nat) (s s1 : state) (t : string) :
  feature_flag_read_webcache cfg = true ->
  feature_flag_write_webcache cfg = true ->
  fetch_url cfg net url path timeout s = (Ok t, s1) ->
  requests s1 <> requests s ->
  not_read_protected (fs s) (cache_file cfg url path) ->
  exists c,
    _webcache s1 !! url = Some c
    /\ open_rb (fs s1) (cache_file cfg url path) = Ok (Text c)
    /\ (universal_newlines c <> "" ->
        fetch_url cfg net' url path timeout' (initial_state (fs s1))
        = (Ok (universal_newlines c),
           set_webcache (<[url := universal_newlines c]> ∅) (initial_state (fs s1)))).
Proof.
  intros Hread Hwrite H Hsent Hprot. rewrite fetch_url_eq in H.
  destruct (try_get_cached_html cfg url path s) as [[c0|e] sa] eqn:Hget; [|discriminate].
  destruct (try_get_cached_html_effect _ _ _ _ _ _ Hget) as (_ & Ra & Fa & _).
  destruct (String.eqb c0 "").
  2:{ injection H as _ <-. now destruct Hsent. }
  rewrite send_request_eq in H.
  assert (Hsend : exists html sb,
             (match net url timeout with
              | Body text => (Ok text, set_requests (requests sa ++ [url]) sa)
              | URLError =>
                  (Ok "", logged ERROR "A url or http error occurred: URLError"
                            (set_requests (requests sa ++ [url]) sa))
              end) = (Ok html, sb) /\ fs sb = fs sa).
  { destruct (net url timeout); eexists _, _; split; reflexivity. }
  destruct Hsend as (html & sb & Hs & Fb). rewrite Hs in H. clear Hs.
  destruct (cache_html_for_later cfg url html path sb) as [[[]|e] sc] eqn:Hcache;
    [|discriminate].
  injection H as _ <-.
  unfold cache_html_for_later in Hcache. unfold bind at 1 in Hcache.
  destruct (quiet_trim_html url html None sb) as (c & sd & Htrim & Fd & _).
  rewrite Htrim in Hcache. unfold bind at 1, modify in Hcache. rewrite Hwrite in Hcache.
  unfold _write_html_to_disk in Hcache.
  set (p := match path with
            | Some path0 => path0
            | None => _get_path_for_cached_html cfg url
            end) in Hcache.
  set (se := set_webcache (<[url := c]> (_webcache sd)) sd) in Hcache.
  assert (Hprot' : not_read_protected (fs se) (resolved cfg p)).
  { intros w x Hw. apply (Hprot w x). apply Fa. rewrite <- Fb, <- Fd. exact Hw. }
  pose proof (write_textfile_file _ _ _ _ _ Hcache Hprot') as Hfile.
  pose proof (keeps_write_textfile cfg p c se) as (Hweb & _).
  rewrite Hcache in Hweb. cbn [snd] in Hweb.
  exists c. split; [rewrite Hweb; apply lookup_insert_eq|].
  split; [exact Hfile|].
  intros Hne. apply fetch_url_disk_hit; auto.
Qed.

End FetchRestart.

(** X18. What a fetch leaves for the next run.  When [fetch_url] sent a
    request and returned, with both web cache flags on and a cache file that
    was not protected against reading, the in-memory entry of [url] and the
    cache file hold the same text, which is the trimmed one.  A fresh
    process over that file tree then answers [fetch_url] from the file,
    without a request, with that text after universal newlines, provided it
    is not empty. *)
Theorem X18_cache_survives_restart (cfg : BudoConfig)
    (net net' : string -> nat -> response) (url : string)
    (path : option Path) (timeout timeout' : nat) (s s1 : state) (t : string) :
  feature_flag_read_webcache cfg = true ->
  feature_flag_write_webcache cfg = true ->
  fetch_url cfg net url path timeout s = (Ok t, s1) ->
  requests s1 <> requests s ->
  not_read_protected (fs s) (cache_file cfg url path) ->
  exists c,
    _webcache s1 !! url = Some c
    /\ open_rb (fs s1) (cache_file cfg url path) = Ok (Text c)
    /\ (universal_newlines c <> "" ->
        fetch_url cfg net' url path timeout' (initial_state (fs s1))
        = (Ok (universal_newlines c),
           set_webcache (<[url := universal_newlines c]> ∅) (initial_state (fs s1)))).
Proof. apply fetch_then_restart. Qed.

Lemma X18_cache_survives_restart_witness :
  let net := fun (_ : string) (_ : nat) => Body "noise<A>body</A>trailer" in
  let offline := fun (_ : string) (_ : nat) => URLError in
  let s := set_trimmer_registry [("test.com/item=", item_trimmer)] (initial_state (Dir [])) in
  let s1 := snd (fetch_url example_config net example_url None 10 s) in
  fst (fetch_url example_config net example_url None 10 s) = Ok "noise<A>body</A>trailer"
  /\ fetch_url example_config offline example_url None 10 (initial_state (fs s1))
     = (Ok "<A>body</A>",
        set_webcache (<[example_url := "<A>body</A>"]> ∅) (initial_state (fs s1))).
Proof.
  intros net offline s s1. split; [vm_compute; reflexivity|].
  destruct (X18_cache_survives_restart example_config net offline example_url None 10 10
              s s1 "noise<A>body</A>trailer") as (c & Hc & Hfile & Hnext).
  - reflexivity.
  - reflexivity.
  - vm_compute. reflexivity.
  - vm_compute. discriminate.
  - intros w x. vm_compute. discriminate.
  - assert (Heq : c = "<A>body</A>").
    { assert (Hl : _webcache s1 !! example_url = Some "<A>body</A>")
        by (vm_compute; reflexivity).
      congruence. }
    subst c. apply Hnext. vm_compute. discriminate.
Defined.

(** ** BudoHtml: where the cache file is *)

















(** ** BudoHtml: fetching a list of URLs *)

Section FetchMany.

Variable cfg : BudoConfig.
Variable net : string -> nat -> response.

Lemma fetch_urls_loop_effect (urls : list string) (paths : option (list (string * Path)))
    (timeout : nat) (d : list (string * string)) (s s' : state)
    (r : result (list (string * string))) :
  fetch_urls_loop cfg net urls paths timeout d s = (r, s') ->
  _trimmer_registry s' = _trimmer_registry s
  /\ (forall u, ~ In u urls -> _webcache s' !! u = _webcache s !! u)
  /\ (exists l, requests s' = requests s ++ l /\ sublist l urls)
  /\ (forall d', r = Ok d' ->
        (List.NoDup (map fst d) -> List.NoDup (map fst d'))
        /\ forall u, In u (map fst d') <-> In u (map fst d) \/ In u urls).
Proof.
  revert d s. induction urls as [|url urls IH]; intros d s H.
  { injection H as <- <-. split; [reflexivity|]. split; [reflexivity|]. split.
    - exists []. rewrite app_nil_r. split; [reflexivity | constructor].
    - intros d' [= <-]. split; [auto | cbn; tauto]. }
  cbn [fetch_urls_loop] in H.
  match type of H with
  | bind ?m _ s = _ =>
      assert (Hpath : exists path sp,
                 m s = (Ok path, sp)
                 /\ _trimmer_registry sp = _trimmer_registry s
                 /\ _webcache sp = _webcache s
                 /\ requests sp = requests s)
  end.
  { destruct paths as [ps|]; [destruct (assoc url ps)|]; eexists _, _;
      (split; [reflexivity|]); repeat split. }
  destruct Hpath as (path & sp & Hp & Hreg0 & Hweb0 & Hreq0).
  unfold bind at 1 in H. rewrite Hp in H. unfold bind at 1 in H.
  pose proof (fetch_url_effect cfg net url path timeout sp) as [(Hreg1 & _ & Hweb1 & _) Hreq1].
  destruct (fetch_url cfg net url path timeout sp) as [[html|e] s1]; cbn [snd] in *.
  - destruct (IH _ _ H) as (Hreg2 & Hweb2 & (l & Hreq2 & Hsub) & Hkeys).
    split; [congruence|]. split; [|split].
    + intros u Hu. rewrite Hweb2 by (intros Hin; apply Hu; now right).
      rewrite Hweb1 by (intros ->; apply Hu; now left). now rewrite Hweb0.
    + destruct Hreq1 as [Hreq1|Hreq1].
      * exists l. split; [congruence | now constructor].
      * exists (url :: l). split; [|now constructor].
        rewrite Hreq2, Hreq1, Hreq0, <- app_assoc. reflexivity.
    + intros d' Hd'. destruct (Hkeys d' Hd') as [Hnd Hin].
      rewrite assoc_set_keys in Hnd, Hin. split.
      * intros Hd. apply Hnd. destruct (assoc url d) eqn:Ha; [exact Hd|].
        apply NoDup_snoc; [exact Hd | now apply assoc_None].
      * intros u. rewrite Hin. destruct (assoc url d) as [v|] eqn:Ha.
        -- apply assoc_In, (in_map fst) in Ha. cbn in *.
           split; [intros [?|?]; auto | intros [?|[<-|?]]; auto].
        -- rewrite in_app_iff. cbn. tauto.
  - injection H as <- <-. split; [congruence|]. split; [|split].
    + intros u Hu. rewrite Hweb1 by (intros ->; apply Hu; now left). now rewrite Hweb0.
    + destruct Hreq1 as [Hreq1|Hreq1].
      * exists []. rewrite app_nil_r. split; [congruence | apply sublist_nil_l].
      * exists [url]. split; [congruence|]. constructor. apply sublist_nil_l.
    + discriminate.
Qed.

Lemma fetch_urls_loop_cached (urls : list string) (timeout : nat)
    (d : list (string * string)) (s : state) :
  (forall u, In u urls -> exists c, _webcache s !! u = Some c /\ c <> "") ->
  exists d',
    fetch_urls_loop cfg net urls None timeout d s = (Ok d', s)
    /\ (forall u, In u urls -> assoc u d' = _webcache s !! u)
    /\ (forall u, ~ In u urls -> assoc u d' = assoc u d).
Proof.
  revert d. induction urls as [|url urls IH]; intros d Hall.
  { exists d. split; [reflexivity|]. split; [intros u [] | auto]. }
  cbn [fetch_urls_loop]. unfold bind at 1. cbn [ret]. unfold bind at 1.
  destruct (Hall url (or_introl eq_refl)) as (c & Hc & Hne).
  rewrite (fetch_url_memory_hit cfg net url None timeout s c Hc Hne).
  destruct (IH (assoc_set url c d)) as (d' & Hrun & Hin & Hout).
  { intros u Hu. apply Hall. now right. }
  exists d'. split; [exact Hrun|]. split.
  - intros u [<-|Hu]; [|auto].
    destruct (in_dec string_dec url urls) as [Hi|Hni]; [auto|].
    rewrite (Hout url Hni), assoc_set_same. now symmetry.
  - intros u Hu. rewrite Hout by (intros Hi; apply Hu; now right).
    apply assoc_set_other. intros ->. apply Hu. now left.
Qed.

End FetchMany.

(** X20. What [fetch_urls] can change and what it returns.  However the
    call ends, the trimmer registry is as it was, the cached text of every
    URL that is not in the list is as it was, and the requests sent in the
    call are a sublist of the list: one request at most for each position,
    in the order of the list.  A dictionary that is returned has each URL of
    the list as a key once, and no other key. *)
Theorem X20_fetch_urls_frame (cfg : BudoConfig) (net : string -> nat -> response)
    (urls : list string) (paths : option (list (string * Path))) (timeout : nat)
    (s : state) :
  let r := fetch_urls cfg net urls paths timeout s in
  _trimmer_registry (snd r) = _trimmer_registry s
  /\ (forall u, ~ In u urls -> _webcache (snd r) !! u = _webcache s !! u)
  /\ (exists l, requests (snd r) = requests s ++ l /\ sublist l urls)
  /\ (forall d, fst r = Ok d ->
        List.NoDup (map fst d) /\ forall u, In u (map fst d) <-> In u urls).
Proof.
  intros r. subst r. unfold fetch_urls.
  destruct (fetch_urls_loop cfg net urls paths timeout [] s) as [r s'] eqn:H. cbn [fst snd].
  destruct (fetch_urls_loop_effect _ _ _ _ _ _ _ _ _ H) as (A & B & C & D).
  split; [exact A|]. split; [exact B|]. split; [exact C|].
  intros d Hd. destruct (D d Hd) as [Hnd Hin]. split; [apply Hnd; constructor|].
  intros u. rewrite Hin. cbn. tauto.
Qed.

Lemma X20_fetch_urls_frame_witness :
  let net := fun (_ : string) (_ : nat) => Body "fresh" in
  let urls := [example_url; "https://www.test.com/item=2"; example_url] in
  let r := fetch_urls memory_only_config net urls None 10 (initial_state (Dir [])) in
  requests (snd r) = [example_url; "https://www.test.com/item=2"]
  /\ List.NoDup (map fst [(example_url, "fresh"); ("https://www.test.com/item=2", "fresh")])
  /\ forall u, In u (map fst [(example_url, "fresh"); ("https://www.test.com/item=2", "fresh")])
               <-> In u urls.
Proof.
  intros net urls r. split; [vm_compute; reflexivity|].
  apply (proj2 (proj2 (proj2 (X20_fetch_urls_frame memory_only_config net urls None 10
                                (initial_state (Dir [])))))).
  vm_compute. reflexivity.
Defined.

(** X21. A list of cached URLs is fetched by a pure read: when every URL
    of the list has an entry in the in-memory map that is not empty and no
    paths are given, [fetch_urls] returns a dictionary that maps each URL of
    the list to its entry and has no other key, sends no request and leaves
    the state as it is. *)
Theorem X21_fetch_urls_cached (cfg : BudoConfig) (net : string -> nat -> response)
    (urls : list string) (timeout : nat) (s : state) :
  (forall u, In u urls -> exists c, _webcache s !! u = Some c /\ c <> "") ->
  exists d,
    fetch_urls cfg net urls None timeout s = (Ok d, s)
    /\ (forall u, In u urls -> assoc u d = _webcache s !! u)
    /\ (forall u, ~ In u urls -> assoc u d = None).
Proof.
  intros Hall.
  destruct (fetch_urls_loop_cached cfg net urls timeout [] s Hall) as (d & Hrun & Hin & Hout).
  exists d. split; [exact Hrun|]. split; [exact Hin|].
  intros u Hu. now rewrite (Hout u Hu).
Qed.

Lemma X21_fetch_urls_cached_witness :
  let offline := fun (_ : string) (_ : nat) => URLError in
  let s := set_webcache (<[example_url := "<A>body</A>"]> ∅) (initial_state (Dir [])) in
  exists d,
    fetch_urls example_config offline [example_url; example_url] None 10 s = (Ok d, s)
    /\ (forall u, In u [example_url; example_url] -> assoc u d = _webcache s !! u)
    /\ (forall u, ~ In u [example_url; example_url] -> assoc u d = None).
Proof.
  intros offline s.
  apply (X21_fetch_urls_cached example_config offline [example_url; example_url] 10 s).
  intros u [<-|[<-|[]]]; exists "<A>body</A>"; split;
    solve [vm_compute; reflexivity | discriminate].
Defined.
